(** * The per-room variable store of the back server

    A shallow embedding of [back/src/Services/VariablesManager.ts]: the
    schema extracted from the Tiled map, the value map of the room, the
    write path [setVariable], the read path [getVariablesForTags], and the
    persistence policy ([shouldPersist], [init]).

    Conventions of the embedding:
    - a JavaScript [Map<string, V>] is a [gmap string V]; the iteration
      order of a [Map] (insertion order) is abstracted to the order of the
      [gmap], which only decides which key an error names when several
      keys are at fault;
    - an optional field ([string | undefined]) is an [option];
    - [throw new Error(msg)] is a value of [Error], one constructor per
      throw site, and [message] renders the text of the source;
    - the instance state and the calls made on the repository are threaded
      through the monad [M], in which a thrown error keeps the state
      reached so far, as a JavaScript exception does;
    - [console.warn] and [console.error] are not modelled. *)

From Stdlib Require Import Ascii String.
From stdpp Require Import base option list strings pretty gmap fin_maps.

Local Open Scope string_scope.

(** ** Values of Tiled custom properties *)

(** Modelled from the spec: the type guard package that declares
    [ITiledMap], [ITiledMapObject] and their properties is not part of the
    sources; a property value "may be string, boolean, or other
    JSON-compatible scalar". Numbers are modelled on the integers. *)
Inductive JsValue : Type :=
  | JUndefined
  | JNull
  | JBoolean (b : bool)
  | JNumber (n : Z)
  | JString (s : string).

(** The result of the [typeof] operator on these values. *)
Inductive JsType : Type :=
  | TUndefined | TObject | TBoolean | TNumber | TString.

Definition typeof (v : JsValue) : JsType :=
  match v with
  | JUndefined => TUndefined
  | JNull => TObject
  | JBoolean _ => TBoolean
  | JNumber _ => TNumber
  | JString _ => TString
  end.

Record ITiledMapProperty : Type := {
  property_name : string;
  property_value : JsValue
}.

Record ITiledMapObject : Type := {
  object_name : string;
  object_type : string;
  object_template : option string;
  object_properties : option (list ITiledMapProperty)
}.

Record ITiledMapLayer : Type := {
  layer_type : string;
  layer_objects : list ITiledMapObject
}.

Record ITiledMap : Type := {
  layers : list ITiledMapLayer
}.

(** Modelled from the spec: [_Model/User] is not part of the sources; the
    acting user "exposes a display name and a set of capability tags". *)
Record User : Type := {
  user_name : string;
  user_tags : list string
}.

(** The interface [Variable] of the source (renamed: the word is a
    command of Rocq). *)
Record VariableObject : Type := {
  defaultValue : option string;
  persist : option bool;
  readableBy : option string;
  writableBy : option string
}.

(** The object literal [{}]. *)
Definition emptyVariable : VariableObject :=
  {| defaultValue := None; persist := None; readableBy := None; writableBy := None |}.

Definition set_defaultValue (v : VariableObject) (d : option string) : VariableObject :=
  {| defaultValue := d; persist := persist v;
     readableBy := readableBy v; writableBy := writableBy v |}.

Definition set_persist (v : VariableObject) (b : bool) : VariableObject :=
  {| defaultValue := defaultValue v; persist := Some b;
     readableBy := readableBy v; writableBy := writableBy v |}.

Definition set_readableBy (v : VariableObject) (t : string) : VariableObject :=
  {| defaultValue := defaultValue v; persist := persist v;
     readableBy := Some t; writableBy := writableBy v |}.

Definition set_writableBy (v : VariableObject) (t : string) : VariableObject :=
  {| defaultValue := defaultValue v; persist := persist v;
     readableBy := readableBy v; writableBy := Some t |}.

(** ** JavaScript helpers *)

(** The double quote and the backslash, as strings of one character. *)
Definition dquote : string := String "034"%char EmptyString.
Definition backslash : string := String "092"%char EmptyString.

(** Truthiness of a string: every string but the empty one. *)
Definition truthy (s : string) : bool :=
  match s with
  | EmptyString => false
  | String _ _ => true
  end.

(** Truthiness of a [string | undefined]. *)
Definition truthy_opt (o : option string) : bool :=
  match o with
  | Some s => truthy s
  | None => false
  end.

(** [Array.prototype.includes] on an array of strings. *)
Definition includes (tags : list string) (t : string) : bool :=
  bool_decide (t ∈ tags).

(** [Array.prototype.join]. *)
Fixpoint join (sep : string) (l : list string) : string :=
  match l with
  | [] => ""
  | [x] => x
  | x :: rest => x +:+ sep +:+ join sep rest
  end.

(** ** Errors *)

(** One constructor per [throw] of the source, plus the rejection of the
    promise of [loadVariables]. *)
Inductive Error : Type :=
  | PersistNotBoolean (objectName : string)
  | WritableByNotString (objectName : string)
  | ReadableByNotString (objectName : string)
  | UndefinedVariable (name : string)
  | InsufficientPermission (name userName requiredTag : string) (userTags : list string)
  | UnexpectedVariable (key : string)
  | RepositoryFailure (reason : string).

(** The text given to [new Error] at each throw site. *)
Definition message (e : Error) : string :=
  match e with
  | PersistNotBoolean o =>
      "The persist property of variable " +:+ dquote +:+ o +:+ dquote +:+ " must be a boolean"
  | WritableByNotString o =>
      "The writableBy property of variable " +:+ dquote +:+ o +:+ dquote +:+ " must be a string"
  | ReadableByNotString o =>
      "The readableBy property of variable " +:+ dquote +:+ o +:+ dquote +:+ " must be a string"
  | UndefinedVariable name =>
      "Trying to set a variable " +:+ dquote +:+ name +:+ dquote
        +:+ " that is not defined as an object in the map."
  | InsufficientPermission name userName tag tags =>
      "Trying to set a variable " +:+ dquote +:+ name +:+ dquote
        +:+ ". User " +:+ dquote +:+ userName +:+ dquote
        +:+ " does not have sufficient permission. Required tag: "
        +:+ dquote +:+ tag +:+ dquote
        +:+ ". User tags: " +:+ join ", " tags +:+ "."
  | UnexpectedVariable key =>
      "Unexpected variable " +:+ dquote +:+ key +:+ dquote
        +:+ " found has no associated variableObject."
  | RepositoryFailure reason => reason
  end.

(** Code that may throw and touches no state. *)
Definition Throws (A : Type) : Type := Error + A.

#[global] Instance Throws_bind : MBind Throws := λ A B f r,
  match r with
  | inl e => inl e
  | inr x => f x
  end.

(** A [for ... of] loop over an array whose body may throw. *)
Fixpoint forOf {A S : Type} (body : S → A → Throws S) (l : list A) (s : S) : Throws S :=
  match l with
  | [] => inr s
  | x :: rest =>
      match body s x with
      | inl e => inl e
      | inr s' => forOf body rest s'
      end
  end.

(** ** [JSON.stringify] on scalars *)

Definition hex_digit (n : N) : string :=
  String (nth (N.to_nat n) (list_ascii_of_string "0123456789abcdef") "0"%char) EmptyString.

(** How [QuoteJSONString] writes one character. *)
Definition quote_char (c : ascii) : string :=
  let n := N_of_ascii c in
  if N.eqb n 8 then backslash +:+ "b"
  else if N.eqb n 9 then backslash +:+ "t"
  else if N.eqb n 10 then backslash +:+ "n"
  else if N.eqb n 12 then backslash +:+ "f"
  else if N.eqb n 13 then backslash +:+ "r"
  else if N.eqb n 34 then backslash +:+ dquote
  else if N.eqb n 92 then backslash +:+ backslash
  else if N.ltb n 32 then
    backslash +:+ "u00" +:+ hex_digit (N.div n 16) +:+ hex_digit (N.modulo n 16)
  else String c EmptyString.

Fixpoint quote_chars (s : string) : string :=
  match s with
  | EmptyString => EmptyString
  | String c rest => quote_char c +:+ quote_chars rest
  end.

Definition QuoteJSONString (s : string) : string :=
  dquote +:+ quote_chars s +:+ dquote.

(** The instance of [JSON.stringify] used to run the model on concrete
    maps: [undefined] has no encoding, an integer (of the range that
    JavaScript prints in full) is its decimal numeral. *)
Definition JSON_stringify_scalar (value : JsValue) : option string :=
  match value with
  | JUndefined => None
  | JNull => Some "null"
  | JBoolean true => Some "true"
  | JBoolean false => Some "false"
  | JNumber n => Some (pretty n)
  | JString s => Some (QuoteJSONString s)
  end.

(** ** The store *)

(** The fields of the class [VariablesManager]. *)
Record VariablesManager : Type := {
  roomUrl : string;
  map : option ITiledMap;
  _variables : gmap string string;
  variableObjects : option (gmap string VariableObject)
}.

(** Modelled from the spec: [./RedisClient] and
    [./Repository/VariablesRepository] are not part of the sources. The
    module constant [redisClient] is a client or [null]; [loadVariables]
    "fails or returns" the saved name to value pairs of a room. The
    deployment mode is [process.env.NODE_ENV]. *)
Inductive RedisClient : Type := redis_connection.

Record Env : Type := {
  redisClient : option RedisClient;
  NODE_ENV : option string;
  loadVariables : string → Throws (gmap string string)
}.

(** One call [variablesRepository.saveVariable(roomUrl, name, value)]. *)
Record SaveCall : Type := {
  save_roomUrl : string;
  save_name : string;
  save_value : string
}.

(** The instance together with the calls to [saveVariable] made so far,
    oldest first. *)
Record World : Type := {
  this : VariablesManager;
  saveVariable_calls : list SaveCall
}.

(** Stateful code that may throw: the state reached when the error is
    thrown is kept. *)
Definition M (A : Type) : Type := World → Throws A * World.

#[global] Instance M_ret : MRet M := λ A x w, (inr x, w).
#[global] Instance M_bind : MBind M := λ A B f c w,
  match c w with
  | (inl e, w') => (inl e, w')
  | (inr x, w') => f x w'
  end.

Definition throw {A : Type} (e : Error) : M A := λ w, (inl e, w).

Definition getThis : M VariablesManager := λ w, (inr (this w), w).

(** [this._variables.set(name, value)]. *)
Definition _variables_set (name value : string) : M unit := λ w,
  (inr (),
   {| this := {| roomUrl := roomUrl (this w);
                 map := map (this w);
                 _variables := <[name := value]> (_variables (this w));
                 variableObjects := variableObjects (this w) |};
      saveVariable_calls := saveVariable_calls w |}).

(** [variablesRepository.saveVariable(roomUrl, name, value)]: the call is
    recorded; its promise is not awaited and a rejection is only logged. *)
Definition saveVariable (url name value : string) : M unit := λ w,
  (inr (),
   {| this := this w;
      saveVariable_calls :=
        saveVariable_calls w ++
        [ {| save_roomUrl := url; save_name := name; save_value := value |} ] |}).

(** [await variablesRepository.loadVariables(roomUrl)]. *)
Definition awaitLoadVariables (env : Env) (url : string) : M (gmap string string) := λ w,
  (loadVariables env url, w).

Section Schema.

(** [JSON.stringify]; [None] is [undefined]. *)
Variable JSON_stringify : JsValue → option string.

(** The body of the loop over [object.properties]: the [switch] on
    [property.name]. *)
Definition setProperty (objectName : string) (variable : VariableObject)
    (property : ITiledMapProperty) : Throws VariableObject :=
  let value := property_value property in
  if String.eqb (property_name property) "default" then
    inr (set_defaultValue variable (JSON_stringify value))
  else if String.eqb (property_name property) "persist" then
    match value with
    | JBoolean b => inr (set_persist variable b)
    | _ => inl (PersistNotBoolean objectName)
    end
  else if String.eqb (property_name property) "writableBy" then
    match value with
    | JString s => if truthy s then inr (set_writableBy variable s) else inr variable
    | _ => inl (WritableByNotString objectName)
    end
  else if String.eqb (property_name property) "readableBy" then
    match value with
    | JString s => if truthy s then inr (set_readableBy variable s) else inr variable
    | _ => inl (ReadableByNotString objectName)
    end
  else inr variable.

Definition iTiledObjectToVariable (object : ITiledMapObject) : Throws VariableObject :=
  match object_properties object with
  | Some properties => forOf (setProperty (object_name object)) properties emptyVariable
  | None => inr emptyVariable
  end.

(** The body of the loop over the objects of an object layer. *)
Definition collectObject (objects : gmap string VariableObject) (object : ITiledMapObject)
    : Throws (gmap string VariableObject) :=
  if String.eqb (object_type object) "variable" then
    if truthy_opt (object_template object) then inr objects
    else
      variable ← iTiledObjectToVariable object;
      inr (<[object_name object := variable]> objects)
  else inr objects.

(** The body of the loop over [map.layers]. *)
Definition collectLayer (objects : gmap string VariableObject) (layer : ITiledMapLayer)
    : Throws (gmap string VariableObject) :=
  if String.eqb (layer_type layer) "objectgroup" then
    forOf collectObject (layer_objects layer) objects
  else inr objects.

Definition findVariablesInMap (tiledMap : ITiledMap) : Throws (gmap string VariableObject) :=
  forOf collectLayer (layers tiledMap) ∅.

(** The loop of the constructor that seeds the default values. *)
Definition seedDefaults (objects : gmap string VariableObject) : gmap string string :=
  map_fold (λ name variableObject variables,
              match defaultValue variableObject with
              | Some d => <[name := d]> variables
              | None => variables
              end) ∅ objects.

(** [new VariablesManager(roomUrl, map)]. *)
Definition constructor (url : string) (tiledMap : option ITiledMap) : Throws VariablesManager :=
  match tiledMap with
  | Some m =>
      objects ← findVariablesInMap m;
      inr {| roomUrl := url; map := Some m;
             _variables := seedDefaults objects;
             variableObjects := Some objects |}
  | None =>
      inr {| roomUrl := url; map := None;
             _variables := ∅;
             variableObjects := None |}
  end.

End Schema.

(** ** Persistence policy and loading *)

Definition shouldPersist (env : Env) (self : VariablesManager) : bool :=
  bool_decide (is_Some (redisClient env)) &&
  (bool_decide (is_Some (map self)) || bool_decide (NODE_ENV env = Some "development")).

(** The loop [for (const key in variables)] of [init]. *)
Definition overlay (variables : gmap string string) : M unit := λ w,
  (inr (),
   {| this := {| roomUrl := roomUrl (this w);
                 map := map (this w);
                 _variables :=
                   map_fold (λ key value vars, <[key := value]> vars)
                            (_variables (this w)) variables;
                 variableObjects := variableObjects (this w) |};
      saveVariable_calls := saveVariable_calls w |}).

(** [init()], run to completion: the instance is not used while the load
    is awaited. A rejected load rejects [init()]. *)
Definition init (env : Env) : M unit :=
  self ← getThis;
  if negb (shouldPersist env self) then mret ()
  else
    variables ← awaitLoadVariables env (roomUrl self);
    overlay variables.

(** ** Write path *)

Definition setVariable (name value : string) (user : User) : M (option string) :=
  self ← getThis;
  readable ←
    match variableObjects self with
    | Some objects =>
        match objects !! name with
        | None => throw (UndefinedVariable name)
        | Some variableObject =>
            match writableBy variableObject with
            | Some tag =>
                if truthy tag && negb (includes (user_tags user) tag) then
                  throw (InsufficientPermission name (user_name user) tag (user_tags user))
                else mret (readableBy variableObject)
            | None => mret (readableBy variableObject)
            end
        end
    | None => mret None
    end;
  _ ← _variables_set name value;
  _ ← saveVariable (roomUrl self) name value;
  mret readable.

(** ** Read path *)

(** The body of the loop over [this._variables.entries()]. *)
Definition collectReadable (objects : gmap string VariableObject) (tags : list string)
    (key value : string) (readableVariables : gmap string string)
    : Throws (gmap string string) :=
  match objects !! key with
  | None => inl (UnexpectedVariable key)
  | Some variableObject =>
      if negb (truthy_opt (readableBy variableObject))
         || match readableBy variableObject with
            | Some tag => includes tags tag
            | None => false
            end
      then inr (<[key := value]> readableVariables)
      else inr readableVariables
  end.

Definition getVariablesForTags (tags : list string) : M (gmap string string) :=
  self ← getThis;
  match variableObjects self with
  | None => mret (_variables self)
  | Some objects =>
      match
        map_fold (λ key value acc, acc ≫= collectReadable objects tags key value)
                 (inr ∅) (_variables self)
      with
      | inl e => throw e
      | inr readableVariables => mret readableVariables
      end
  end.

(** ** Life of a room *)

(** The calls a room makes on its store once it is constructed. *)
Inductive Operation : Type :=
  | OpInit
  | OpSetVariable (name value : string) (user : User)
  | OpGetVariablesForTags (tags : list string).

(** The state after one call, whether it returned or threw. *)
Definition run (env : Env) (op : Operation) (w : World) : World :=
  match op with
  | OpInit => snd (init env w)
  | OpSetVariable name value user => snd (setVariable name value user w)
  | OpGetVariablesForTags tags => snd (getVariablesForTags tags w)
  end.

Definition newWorld (self : VariablesManager) : World :=
  {| this := self; saveVariable_calls := [] |}.

(** The states a store goes through: built by the constructor, then any
    sequence of [init], [setVariable] and [getVariablesForTags]. *)
Inductive reachable (JSON_stringify : JsValue → option string) (env : Env) : World → Prop :=
  | reachable_new url tiledMap self :
      constructor JSON_stringify url tiledMap = inr self →
      reachable JSON_stringify env (newWorld self)
  | reachable_run op w :
      reachable JSON_stringify env w →
      reachable JSON_stringify env (run env op w).

(** ** Notions of the specification *)

(** The store invariant: every key of the value map is declared in the
    schema, when there is one. *)
Definition schema_invariant (self : VariablesManager) : Prop :=
  ∀ objects, variableObjects self = Some objects →
    ∀ key, is_Some (_variables self !! key) → is_Some (objects !! key).

(** A tag of a definition is never the empty string. *)
Definition tags_set (variable : VariableObject) : Prop :=
  writableBy variable ≠ Some "" ∧ readableBy variable ≠ Some "".

(** A variable is visible to a tag set when its definition has no
    [readableBy] restriction or the restriction is one of the tags. *)
Definition visible (objects : gmap string VariableObject) (tags : list string)
    (key : string) : Prop :=
  ∃ variableObject, objects !! key = Some variableObject ∧
    (readableBy variableObject = None ∨
     ∃ tag, readableBy variableObject = Some tag ∧ tag ∈ tags).

(** An object of the map that the extraction turns into a definition:
    an object of type "variable", not made from a template, in an object
    layer. *)
Definition qualifying (tiledMap : ITiledMap) (object : ITiledMapObject) : Prop :=
  ∃ layer, layer ∈ layers tiledMap ∧ layer_type layer = "objectgroup" ∧
    object ∈ layer_objects layer ∧ object_type object = "variable" ∧
    truthy_opt (object_template object) = false.

(** The last property of a list that bears a given name. *)
Fixpoint lastNamed (name : string) (properties : list ITiledMapProperty)
    : option ITiledMapProperty :=
  match properties with
  | [] => None
  | p :: rest =>
      match lastNamed name rest with
      | Some q => Some q
      | None => if String.eqb (property_name p) name then Some p else None
      end
  end.

(** The state after a successful [setVariable]. *)
Definition written (name value : string) (w : World) : World :=
  {| this := {| roomUrl := roomUrl (this w);
                map := map (this w);
                _variables := <[name := value]> (_variables (this w));
                variableObjects := variableObjects (this w) |};
     saveVariable_calls :=
       saveVariable_calls w ++
       [ {| save_roomUrl := roomUrl (this w); save_name := name; save_value := value |} ] |}.


(** ** A sample room

    The room of the scenario of the specification: the map declares
    [score] (default 0, persisted, writable by players) and [note] (not
    persisted, readable by admins). *)

Definition scoreObject : ITiledMapObject :=
  {| object_name := "score"; object_type := "variable";
     object_template := None;
     object_properties := Some
       [ {| property_name := "default"; property_value := JNumber 0 |};
         {| property_name := "persist"; property_value := JBoolean true |};
         {| property_name := "writableBy"; property_value := JString "player" |};
         {| property_name := "readableBy"; property_value := JString "" |} ] |}.

Definition noteObject : ITiledMapObject :=
  {| object_name := "note"; object_type := "variable";
     object_template := None;
     object_properties := Some
       [ {| property_name := "persist"; property_value := JBoolean false |};
         {| property_name := "readableBy"; property_value := JString "admin" |} ] |}.

Definition sampleLayer : ITiledMapLayer :=
  {| layer_type := "objectgroup"; layer_objects := [scoreObject; noteObject] |}.

Definition sampleMap : ITiledMap :=
  {| layers := [ {| layer_type := "tilelayer"; layer_objects := [] |}; sampleLayer ] |}.

Definition scoreVariable : VariableObject :=
  {| defaultValue := Some "0"; persist := Some true;
     readableBy := None; writableBy := Some "player" |}.

Definition noteVariable : VariableObject :=
  {| defaultValue := None; persist := Some false;
     readableBy := Some "admin"; writableBy := None |}.

Definition sampleSchema : gmap string VariableObject :=
  <["note" := noteVariable]> (<["score" := scoreVariable]> ∅).

(** The store that the constructor builds for the sample map. *)
Definition sampleStore : VariablesManager :=
  {| roomUrl := "room"; map := Some sampleMap;
     _variables := <["score" := "0"]> ∅;
     variableObjects := Some sampleSchema |}.

(** The store of a room without map. *)
Definition bareStore : VariablesManager :=
  {| roomUrl := "room"; map := None; _variables := ∅; variableObjects := None |}.

Definition player : User := {| user_name := "alice"; user_tags := ["player"] |}.
Definition guest : User := {| user_name := "bob"; user_tags := ["guest"] |}.

(** A production server with Redis whose saved data for the room still
    holds [ghost], a variable that the map no longer declares, next to a
    saved [score]. *)
Definition staleEnv : Env :=
  {| redisClient := Some redis_connection;
     NODE_ENV := Some "production";
     loadVariables := λ _, inr (<["ghost" := "1"]> (<["score" := "7"]> ∅)) |}.

(** A production server without Redis. *)
Definition offlineEnv : Env :=
  {| redisClient := None;
     NODE_ENV := Some "production";
     loadVariables := λ _, inr ∅ |}.

(** The sample store once [init] has loaded the stale data. *)
Definition staleWorld : World := run staleEnv OpInit (newWorld sampleStore).

(** A map whose variable [flag] has a [persist] property that is a string. *)
Definition flagObject : ITiledMapObject :=
  {| object_name := "flag"; object_type := "variable";
     object_template := None;
     object_properties := Some
       [ {| property_name := "default"; property_value := JBoolean false |};
         {| property_name := "persist"; property_value := JString "yes" |} ] |}.

Definition brokenMap : ITiledMap :=
  {| layers := [ {| layer_type := "objectgroup"; layer_objects := [scoreObject; flagObject] |} ] |}.


(** ** Notions used to describe the extraction *)

(** The test that [findVariablesInMap] makes on an object of an object
    layer: its type is "variable" and it is not made from a template. *)
Definition isVariableObject (object : ITiledMapObject) : bool :=
  String.eqb (object_type object) "variable"
  && negb (truthy_opt (object_template object)).

(** The objects that the extraction converts, in the order in which its
    two loops meet them. *)
Definition variableObjectsOf (tiledMap : ITiledMap) : list ITiledMapObject :=
  flat_map (λ layer,
              if String.eqb (layer_type layer) "objectgroup"
              then List.filter isVariableObject (layer_objects layer)
              else [])
           (layers tiledMap).

(** What the extraction does with an object that has passed the test:
    convert it and enter it in the schema under its name. *)
Definition declareObject (JSON_stringify : JsValue → option string)
    (objects : gmap string VariableObject) (object : ITiledMapObject)
    : Throws (gmap string VariableObject) :=
  match iTiledObjectToVariable JSON_stringify object with
  | inl e => inl e
  | inr variable => inr (<[object_name object := variable]> objects)
  end.

(** The last object of a list that bears a given name. *)
Fixpoint lastObjectNamed (name : string) (objects : list ITiledMapObject)
    : option ITiledMapObject :=
  match objects with
  | [] => None
  | object :: rest =>
      match lastObjectNamed name rest with
      | Some later => Some later
      | None => if String.eqb (object_name object) name then Some object else None
      end
  end.

(** The type that the [switch] of [iTiledObjectToVariable] asks of the
    value of a property. *)
Definition wellTyped (property : ITiledMapProperty) : bool :=
  if String.eqb (property_name property) "default" then true
  else if String.eqb (property_name property) "persist" then
    match typeof (property_value property) with TBoolean => true | _ => false end
  else if String.eqb (property_name property) "writableBy" then
    match typeof (property_value property) with TString => true | _ => false end
  else if String.eqb (property_name property) "readableBy" then
    match typeof (property_value property) with TString => true | _ => false end
  else true.

(** The property names that the [switch] has a case for. *)
Definition recognized (property : ITiledMapProperty) : bool :=
  String.eqb (property_name property) "default"
  || String.eqb (property_name property) "persist"
  || String.eqb (property_name property) "writableBy"
  || String.eqb (property_name property) "readableBy".

(** The boolean of the last [persist] property of a list. *)
Fixpoint lastPersist (properties : list ITiledMapProperty) : option bool :=
  match properties with
  | [] => None
  | p :: rest =>
      match lastPersist rest with
      | Some b => Some b
      | None =>
          if String.eqb (property_name p) "persist" then
            match property_value p with JBoolean b => Some b | _ => None end
          else None
      end
  end.

(** The last non-empty string among the properties of a given name. *)
Fixpoint lastTag (name : string) (properties : list ITiledMapProperty) : option string :=
  match properties with
  | [] => None
  | p :: rest =>
      match lastTag name rest with
      | Some tag => Some tag
      | None =>
          if String.eqb (property_name p) name then
            match property_value p with
            | JString s => if truthy s then Some s else None
            | _ => None
            end
          else None
      end
  end.

(** An object with its list of properties replaced. *)
Definition withProperties (object : ITiledMapObject)
    (properties : list ITiledMapProperty) : ITiledMapObject :=
  {| object_name := object_name object;
     object_type := object_type object;
     object_template := object_template object;
     object_properties := Some properties |}.

(** The state after a sequence of calls. *)
Definition runAll (env : Env) (ops : list Operation) (w : World) : World :=
  foldl (λ w op, run env op w) w ops.

(** The calls to [saveVariable] that a sequence of calls asks for: one
    for each [setVariable] of the sequence that returns on the store, in
    the order of the sequence. *)
Definition acceptedWrites (ops : list Operation) (w : World) : list SaveCall :=
  omap (λ op,
          match op with
          | OpSetVariable name value user =>
              match fst (setVariable name value user w) with
              | inr _ =>
                  Some {| save_roomUrl := roomUrl (this w);
                          save_name := name; save_value := value |}
              | inl _ => None
              end
          | OpInit | OpGetVariablesForTags _ => None
          end) ops.

(** A map that declares [score] twice, in two layers: the later object
    asks for the tag [admin] and has no default. *)
Definition laterScoreObject : ITiledMapObject :=
  {| object_name := "score"; object_type := "variable";
     object_template := None;
     object_properties := Some
       [ {| property_name := "writableBy"; property_value := JString "admin" |};
         {| property_name := "writableBy"; property_value := JString "" |};
         {| property_name := "comment"; property_value := JNumber 3 |} ] |}.

Definition laterScoreVariable : VariableObject :=
  {| defaultValue := None; persist := None;
     readableBy := None; writableBy := Some "admin" |}.

Definition duplicateMap : ITiledMap :=
  {| layers := [ sampleLayer;
                 {| layer_type := "objectgroup"; layer_objects := [laterScoreObject] |} ] |}.

(** * Properties *)

(** ** The write path *)

(** When a call to [setVariable] returns, when it throws, and the state it
    leaves. *)
Lemma setVariable_cases name value user w :
  setVariable name value user w =
    match variableObjects (this w) with
    | None => (inr None, written name value w)
    | Some objects =>
        match objects !! name with
        | None => (inl (UndefinedVariable name), w)
        | Some variableObject =>
            match writableBy variableObject with
            | Some tag =>
                if truthy tag && negb (includes (user_tags user) tag)
                then (inl (InsufficientPermission name (user_name user) tag (user_tags user)), w)
                else (inr (readableBy variableObject), written name value w)
            | None => (inr (readableBy variableObject), written name value w)
            end
        end
    end.
Proof.
  destruct w as [[url tiledMap variables schema] calls].
  unfold setVariable, mbind, M_bind, getThis, throw, mret, M_ret,
    _variables_set, saveVariable, written; simpl.
  destruct schema as [objects|]; simpl; [|reflexivity].
  destruct (objects !! name) as [variableObject|]; simpl; [|reflexivity].
  destruct (writableBy variableObject) as [tag|]; simpl; [|reflexivity].
  destruct (truthy tag && negb (includes (user_tags user) tag)); reflexivity.
Qed.

(** A call that throws leaves the instance and the repository alone. *)
Lemma setVariable_throw_state name value user w e w' :
  setVariable name value user w = (inl e, w') → w' = w.
Proof.
  rewrite setVariable_cases. intros H.
  repeat case_match; congruence.
Qed.

(** A call that returns has written the value, made one call to
    [saveVariable], and returns the [readableBy] of the definition. *)
Lemma setVariable_return_state name value user w r w' :
  setVariable name value user w = (inr r, w') →
  w' = written name value w ∧
  r = match variableObjects (this w) with
      | Some objects => objects !! name ≫= readableBy
      | None => None
      end.
Proof.
  rewrite setVariable_cases. intros H.
  repeat case_match; simplify_eq/=; done.
Qed.

(** ** Loading *)

(** Setting every loaded pair is the union that prefers the loaded map. *)
Lemma overlay_union (variables current : gmap string string) :
  map_fold (λ key value vars, <[key := value]> vars) current variables
  = variables ∪ current.
Proof.
  induction variables as [|key value variables Hfresh Hfirst IH] using map_first_key_ind.
  - by rewrite map_fold_empty, (left_id_L ∅ (∪)).
  - rewrite map_fold_insert_first_key by done.
    by rewrite IH, insert_union_l.
Qed.

(** What [init] does, by case. *)
Lemma init_cases env w :
  init env w =
    if shouldPersist env (this w) then
      match loadVariables env (roomUrl (this w)) with
      | inl e => (inl e, w)
      | inr variables =>
          (inr (),
           {| this := {| roomUrl := roomUrl (this w);
                         map := map (this w);
                         _variables := variables ∪ _variables (this w);
                         variableObjects := variableObjects (this w) |};
              saveVariable_calls := saveVariable_calls w |})
      end
    else (inr (), w).
Proof.
  unfold init, mbind, M_bind, getThis, mret, M_ret, awaitLoadVariables, overlay; simpl.
  destruct (shouldPersist env (this w)); simpl; [|reflexivity].
  destruct (loadVariables env (roomUrl (this w))) as [e|variables]; [reflexivity|].
  by rewrite overlay_union.
Qed.

(** ** The read path *)

(** Reading never changes the state. *)
Lemma getVariablesForTags_state tags w :
  snd (getVariablesForTags tags w) = w.
Proof.
  unfold getVariablesForTags, mbind at 1, M_bind, getThis, mret, M_ret, throw; simpl.
  destruct (variableObjects (this w)); [|reflexivity].
  by destruct (map_fold _ _ _).
Qed.

(** No call changes the schema, the map or the room of the instance. *)
Lemma run_schema env op w :
  variableObjects (this (run env op w)) = variableObjects (this w) ∧
  map (this (run env op w)) = map (this w) ∧
  roomUrl (this (run env op w)) = roomUrl (this w).
Proof.
  destruct op as [|name value user|tags]; simpl.
  - rewrite init_cases. by repeat case_match.
  - rewrite setVariable_cases. by repeat case_match.
  - by rewrite getVariablesForTags_state.
Qed.

(** ** Schema extraction *)

(** A property that holds before a loop and is kept by every round that
    does not throw holds when the loop completes. *)
Lemma forOf_invariant {A S : Type} (P : S → Prop) (body : S → A → Throws S) l :
  (∀ s x s', P s → body s x = inr s' → P s') →
  ∀ s s', P s → forOf body l s = inr s' → P s'.
Proof.
  intros Hbody. induction l as [|x rest IH]; intros s s' Hs; simpl.
  - by intros [= <-].
  - destruct (body s x) as [e|s1] eqn:Hx; [done|]. eauto.
Qed.

(** A round that throws whatever the state makes the loop throw. *)
Lemma forOf_throws {A S : Type} (body : S → A → Throws S) l x :
  x ∈ l → (∀ s, ∃ e, body s x = inl e) →
  ∀ s, ∃ e, forOf body l s = inl e.
Proof.
  intros Hin Hx. induction l as [|y rest IH]; intros s; simpl.
  - by apply elem_of_nil in Hin.
  - destruct (body s y) as [e|s1] eqn:Hy; [by eexists|].
    apply elem_of_cons in Hin as [->|Hin]; [|by apply IH].
    destruct (Hx s) as [e He]. congruence.
Qed.

Lemma truthy_nonempty s : truthy s = true ↔ s ≠ "".
Proof. by destruct s. Qed.

Section SchemaProperties.

Variable JSON_stringify : JsValue → option string.

Lemma setProperty_tags objectName variable property variable' :
  tags_set variable →
  setProperty JSON_stringify objectName variable property = inr variable' →
  tags_set variable'.
Proof.
  intros [Hw Hr]. unfold setProperty.
  repeat case_match; intros [= <-]; split; simpl; try done;
    intros [= ->]; done.
Qed.

Lemma iTiledObjectToVariable_tags object variable :
  iTiledObjectToVariable JSON_stringify object = inr variable → tags_set variable.
Proof.
  unfold iTiledObjectToVariable.
  destruct (object_properties object) as [properties|].
  - apply (forOf_invariant tags_set); [|done].
    intros s x s'. apply setProperty_tags.
  - by intros [= <-].
Qed.

(** Every definition of an extracted schema has its tags set or absent,
    never empty. *)
Lemma findVariablesInMap_tags tiledMap objects :
  findVariablesInMap JSON_stringify tiledMap = inr objects →
  map_Forall (λ _ variable, tags_set variable) objects.
Proof.
  unfold findVariablesInMap.
  apply (forOf_invariant (map_Forall (λ _ variable, tags_set variable)));
    [|apply map_Forall_empty].
  intros s layer s' Hs. unfold collectLayer.
  destruct (String.eqb _ _); [|by intros [= <-]].
  apply forOf_invariant; [|done].
  clear. intros s object s' Hs. unfold collectObject.
  destruct (String.eqb _ _); [|by intros [= <-]].
  destruct (truthy_opt _); [by intros [= <-]|].
  destruct (iTiledObjectToVariable _ _) as [e|variable] eqn:Hv; simpl; [done|].
  intros [= <-]. apply map_Forall_insert_2; [|done].
  by eapply iTiledObjectToVariable_tags.
Qed.

(** The seeded value of a name is the default of its definition. *)
Lemma seedDefaults_lookup (objects : gmap string VariableObject) name :
  seedDefaults objects !! name = objects !! name ≫= defaultValue.
Proof.
  unfold seedDefaults.
  induction objects as [|key variable objects Hfresh Hfirst IH] using map_first_key_ind.
  - by rewrite map_fold_empty, !lookup_empty.
  - rewrite map_fold_insert_first_key by done.
    destruct (decide (key = name)) as [->|Hne].
    + rewrite lookup_insert_eq. simpl.
      destruct (defaultValue variable) as [d|].
      * by rewrite lookup_insert_eq.
      * by rewrite IH, Hfresh.
    + rewrite lookup_insert_ne by done.
      destruct (defaultValue variable) as [d|]; [|done].
      by rewrite lookup_insert_ne.
Qed.

(** What the constructor builds. *)
Lemma constructor_cases url tiledMap self :
  constructor JSON_stringify url tiledMap = inr self →
  roomUrl self = url ∧ map self = tiledMap ∧
  match tiledMap with
  | Some m =>
      ∃ objects, findVariablesInMap JSON_stringify m = inr objects ∧
        variableObjects self = Some objects ∧
        _variables self = seedDefaults objects
  | None => variableObjects self = None ∧ _variables self = ∅
  end.
Proof.
  unfold constructor. destruct tiledMap as [m|].
  - destruct (findVariablesInMap JSON_stringify m) as [e|objects]; simpl; [done|].
    intros [= <-]; simpl. eauto 10.
  - by intros [= <-].
Qed.

(** The constructor establishes the store invariant. *)
Lemma constructor_invariant url tiledMap self :
  constructor JSON_stringify url tiledMap = inr self → schema_invariant self.
Proof.
  intros (_ & _ & H)%constructor_cases objects Hschema key [v Hv].
  destruct tiledMap as [m|].
  - destruct H as (objects' & _ & Hobjects & Hvars).
    rewrite Hvars, seedDefaults_lookup in Hv.
    assert (objects' = objects) as -> by congruence.
    destruct (objects !! key); [by eexists|done].
  - destruct H as [Hnone _]. congruence.
Qed.

(** In every state of a store the schema is the one the constructor
    extracted: its tags are never empty, and it is there exactly when the
    room has a map. *)
Lemma reachable_schema env w :
  reachable JSON_stringify env w →
  (is_Some (map (this w)) ↔ is_Some (variableObjects (this w))) ∧
  ∀ objects, variableObjects (this w) = Some objects →
    map_Forall (λ _ variable, tags_set variable) objects.
Proof.
  induction 1 as [url tiledMap self Hnew|op w Hw IH].
  - apply constructor_cases in Hnew as (_ & Hmap & H). simpl.
    destruct tiledMap as [m|].
    + destruct H as (objects & Hfind & Hschema & _). rewrite Hmap, Hschema.
      split; [done|]. intros ? [= <-]. by eapply findVariablesInMap_tags.
    + destruct H as [Hschema _]. rewrite Hmap, Hschema.
      split; [|done]. split; intros [? [=]].
  - destruct (run_schema env op w) as (-> & -> & _). done.
Qed.

End SchemaProperties.

(** ** Visibility *)

(** The test of the read loop agrees with [visible] on definitions whose
    tags are not empty. *)
Lemma readable_test_visible (objects : gmap string VariableObject) tags key variableObject :
  objects !! key = Some variableObject →
  tags_set variableObject →
  negb (truthy_opt (readableBy variableObject))
  || match readableBy variableObject with
     | Some tag => includes tags tag
     | None => false
     end = true
  ↔ visible objects tags key.
Proof.
  intros Hkey [_ Hr]. unfold visible, includes. rewrite Hkey.
  destruct (readableBy variableObject) as [tag|] eqn:Htag; simpl.
  - assert (truthy tag = true) as -> by (apply truthy_nonempty; congruence).
    simpl. rewrite bool_decide_eq_true. split.
    + intros Hin. eexists; split; [done|]. right. eauto.
    + intros (v & [= <-] & [Hnone|(t & Ht & Hin)]); congruence.
  - split; [|done]. intros _. eexists; split; [done|]. by left.
Qed.

(** The read loop: it throws on a key without definition, and otherwise
    collects the visible entries. *)
Lemma read_loop (objects : gmap string VariableObject) tags
    (variables : gmap string string) :
  map_Forall (λ _ variable, tags_set variable) objects →
  match
    map_fold (λ key value acc, acc ≫= collectReadable objects tags key value)
             (inr ∅) variables
  with
  | inr readableVariables =>
      (∀ key, is_Some (variables !! key) → is_Some (objects !! key)) ∧
      ∀ key value, readableVariables !! key = Some value ↔
        variables !! key = Some value ∧ visible objects tags key
  | inl e =>
      ∃ key, e = UnexpectedVariable key ∧
        is_Some (variables !! key) ∧ objects !! key = None
  end.
Proof.
  intros Htags.
  apply (map_fold_weak_ind (λ r (m : gmap string string),
    match r with
    | inr readableVariables =>
        (∀ key, is_Some (m !! key) → is_Some (objects !! key)) ∧
        ∀ key value, readableVariables !! key = Some value ↔
          m !! key = Some value ∧ visible objects tags key
    | inl e =>
        ∃ key, e = UnexpectedVariable key ∧
          is_Some (m !! key) ∧ objects !! key = None
    end)).
  - split; [intros key [v Hv]; by rewrite lookup_empty in Hv|].
    intros key value. rewrite !lookup_empty. split; [done|by intros [? _]].
  - intros i x m r Hfresh Hr. destruct r as [e|readableVariables]; simpl.
    + destruct Hr as (key & -> & [v Hv] & Hnone). exists key.
      split; [done|]. split; [|done]. exists v.
      rewrite lookup_insert_ne; [done|congruence].
    + destruct Hr as [Hdeclared Hentries]. unfold collectReadable.
      destruct (objects !! i) as [variableObject|] eqn:Hi.
      * pose proof (readable_test_visible objects tags i variableObject Hi
                      (Htags i variableObject Hi)) as Hvis.
        destruct (negb _ || _) eqn:Htest.
        -- split.
           ++ intros key [v Hv]. destruct (decide (i = key)) as [<-|Hne]; [by eexists|].
              rewrite lookup_insert_ne in Hv by done. apply Hdeclared. by eexists.
           ++ intros key value. destruct (decide (i = key)) as [<-|Hne].
              ** rewrite !lookup_insert_eq. split; [|by intros [? _]].
                 intros Heq. split; [done|]. by apply Hvis.
              ** rewrite !lookup_insert_ne by done. apply Hentries.
        -- split.
           ++ intros key [v Hv]. destruct (decide (i = key)) as [<-|Hne]; [by eexists|].
              rewrite lookup_insert_ne in Hv by done. apply Hdeclared. by eexists.
           ++ intros key value. destruct (decide (i = key)) as [<-|Hne].
              ** rewrite lookup_insert_eq. rewrite Hentries, Hfresh. split.
                 --- by intros [? _].
                 --- intros [_ Hv]. apply Hvis in Hv. congruence.
              ** rewrite lookup_insert_ne by done. apply Hentries.
      * exists i. split; [done|]. split; [|done]. exists x. by rewrite lookup_insert_eq.
Qed.

(** The read on a store without schema hands out the value map itself. *)
Lemma getVariablesForTags_schemaless tags w :
  variableObjects (this w) = None →
  getVariablesForTags tags w = (inr (_variables (this w)), w).
Proof.
  intros Hnone.
  unfold getVariablesForTags, mbind at 1, M_bind, getThis, mret, M_ret; simpl.
  by rewrite Hnone.
Qed.

(** The read on a store whose keys are all declared. *)
Lemma getVariablesForTags_declared tags w objects :
  variableObjects (this w) = Some objects →
  map_Forall (λ _ variable, tags_set variable) objects →
  schema_invariant (this w) →
  ∃ readableVariables,
    getVariablesForTags tags w = (inr readableVariables, w) ∧
    ∀ key value, readableVariables !! key = Some value ↔
      _variables (this w) !! key = Some value ∧ visible objects tags key.
Proof.
  intros Hschema Htags Hinv.
  pose proof (read_loop objects tags (_variables (this w)) Htags) as Hloop.
  unfold getVariablesForTags, mbind at 1, M_bind, getThis, mret, M_ret, throw; simpl.
  rewrite Hschema.
  destruct (map_fold _ _ _) as [e|readableVariables].
  - destruct Hloop as (key & _ & Hsome & Hnone).
    apply (Hinv objects Hschema) in Hsome as [? ?]. congruence.
  - exists readableVariables. split; [done|]. apply Hloop.
Qed.

(** The read on a store that holds a key without definition. *)
Lemma getVariablesForTags_stray tags w objects stray :
  variableObjects (this w) = Some objects →
  map_Forall (λ _ variable, tags_set variable) objects →
  is_Some (_variables (this w) !! stray) → objects !! stray = None →
  ∃ key, getVariablesForTags tags w = (inl (UnexpectedVariable key), w) ∧
    is_Some (_variables (this w) !! key) ∧ objects !! key = None.
Proof.
  intros Hschema Htags Hsome Hnone.
  pose proof (read_loop objects tags (_variables (this w)) Htags) as Hloop.
  unfold getVariablesForTags, mbind at 1, M_bind, getThis, mret, M_ret, throw; simpl.
  rewrite Hschema.
  destruct (map_fold _ _ _) as [e|readableVariables].
  - destruct Hloop as (key & -> & Hkey). by exists key.
  - destruct Hloop as [Hdeclared _].
    apply Hdeclared in Hsome as [? ?]. congruence.
Qed.

(** ** The store invariant *)

Lemma setVariable_invariant name value user w :
  schema_invariant (this w) →
  schema_invariant (this (snd (setVariable name value user w))).
Proof.
  intros Hinv. rewrite setVariable_cases.
  destruct (variableObjects (this w)) as [objects|] eqn:Hschema.
  - destruct (objects !! name) as [variableObject|] eqn:Hname; [|done].
    assert (schema_invariant (this (written name value w))) as Hwritten.
    { intros objects' Hobjects' key. simpl in *.
      assert (objects' = objects) as -> by congruence.
      destruct (decide (name = key)) as [<-|Hne].
      - intros _. by eexists.
      - rewrite lookup_insert_ne by done. by apply Hinv. }
    by repeat case_match.
  - intros objects Hobjects. simpl in Hobjects. congruence.
Qed.

Lemma init_invariant env w :
  schema_invariant (this w) →
  (∀ variables objects key,
     loadVariables env (roomUrl (this w)) = inr variables →
     variableObjects (this w) = Some objects →
     is_Some (variables !! key) → is_Some (objects !! key)) →
  schema_invariant (this (snd (init env w))).
Proof.
  intros Hinv Hloaded. rewrite init_cases.
  destruct (shouldPersist env (this w)); [|done].
  destruct (loadVariables env (roomUrl (this w))) as [e|variables] eqn:Hload; [done|].
  intros objects Hobjects key. simpl in *.
  rewrite lookup_union_is_Some. intros [Hkey|Hkey].
  - by eapply Hloaded.
  - by apply Hinv.
Qed.

(** Reading keeps the invariant, as it keeps the state. *)
Lemma run_invariant env op w :
  schema_invariant (this w) →
  (∀ objects variables key,
     variableObjects (this w) = Some objects →
     loadVariables env (roomUrl (this w)) = inr variables →
     is_Some (variables !! key) → is_Some (objects !! key)) →
  schema_invariant (this (run env op w)).
Proof.
  intros Hinv Hloaded. destruct op as [|name value user|tags]; simpl.
  - apply init_invariant; [done|]. eauto.
  - by apply setVariable_invariant.
  - by rewrite getVariablesForTags_state.
Qed.

(** The store invariant holds in every state of a store for which the
    repository holds declared names only. *)
Lemma reachable_invariant JSON_stringify env w :
  reachable JSON_stringify env w →
  (∀ objects variables key,
     variableObjects (this w) = Some objects →
     loadVariables env (roomUrl (this w)) = inr variables →
     is_Some (variables !! key) → is_Some (objects !! key)) →
  schema_invariant (this w).
Proof.
  induction 1 as [url tiledMap self Hnew|op w Hw IH]; intros Hloaded.
  - by eapply constructor_invariant.
  - destruct (run_schema env op w) as (Hschema & _ & Hurl).
    rewrite Hschema, Hurl in Hloaded. by apply run_invariant; [apply IH|].
Qed.

(** ** The text of the errors *)

Lemma message_of_denied_write :
  message (InsufficientPermission "score" "bob" "player" ["guest"; "visitor"])
  = "Trying to set a variable " +:+ dquote +:+ "score" +:+ dquote
    +:+ ". User " +:+ dquote +:+ "bob" +:+ dquote
    +:+ " does not have sufficient permission. Required tag: "
    +:+ dquote +:+ "player" +:+ dquote +:+ ". User tags: guest, visitor.".
Proof. reflexivity. Qed.

(** ** The encoding of default values *)

Lemma JSON_stringify_scalar_samples :
  JSON_stringify_scalar (JNumber (-42)) = Some "-42" ∧
  JSON_stringify_scalar (JBoolean true) = Some "true" ∧
  JSON_stringify_scalar (JString "a b") = Some (dquote +:+ "a b" +:+ dquote) ∧
  JSON_stringify_scalar (JString (backslash +:+ dquote))
  = Some (dquote +:+ backslash +:+ backslash +:+ backslash +:+ dquote +:+ dquote) ∧
  JSON_stringify_scalar JUndefined = None.
Proof. repeat split; vm_compute; reflexivity. Qed.

(** ** The properties of an object *)

Section PropertyRules.

Variable JSON_stringify : JsValue → option string.

(** A [persist] property that is not a boolean makes the round throw. *)
Lemma setProperty_persist_type objectName variable property :
  property_name property = "persist" →
  typeof (property_value property) ≠ TBoolean →
  setProperty JSON_stringify objectName variable property
  = inl (PersistNotBoolean objectName).
Proof.
  intros Hname Htype. unfold setProperty. rewrite Hname. simpl.
  by destruct (property_value property).
Qed.

Lemma setProperty_writableBy_type objectName variable property :
  property_name property = "writableBy" →
  typeof (property_value property) ≠ TString →
  setProperty JSON_stringify objectName variable property
  = inl (WritableByNotString objectName).
Proof.
  intros Hname Htype. unfold setProperty. rewrite Hname. simpl.
  by destruct (property_value property).
Qed.

Lemma setProperty_readableBy_type objectName variable property :
  property_name property = "readableBy" →
  typeof (property_value property) ≠ TString →
  setProperty JSON_stringify objectName variable property
  = inl (ReadableByNotString objectName).
Proof.
  intros Hname Htype. unfold setProperty. rewrite Hname. simpl.
  by destruct (property_value property).
Qed.

(** An empty [writableBy] or [readableBy] changes nothing. *)
Lemma setProperty_empty_tag objectName variable property :
  property_name property = "writableBy" ∨ property_name property = "readableBy" →
  property_value property = JString "" →
  setProperty JSON_stringify objectName variable property = inr variable.
Proof.
  intros [Hname|Hname] Hvalue; unfold setProperty; by rewrite Hname, Hvalue.
Qed.

(** Only a non-empty [writableBy] property sets the write restriction. *)
Lemma setProperty_writableBy objectName variable property variable' :
  setProperty JSON_stringify objectName variable property = inr variable' →
  (property_name property = "writableBy" → property_value property = JString "") →
  writableBy variable' = writableBy variable.
Proof.
  unfold setProperty. intros Hset Hempty.
  destruct (String.eqb (property_name property) "default") eqn:Hd;
    [by injection Hset as <-|].
  destruct (String.eqb (property_name property) "persist") eqn:Hp;
    [destruct (property_value property); by simplify_eq|].
  destruct (String.eqb (property_name property) "writableBy") eqn:Hw.
  { apply String.eqb_eq in Hw. rewrite (Hempty Hw) in Hset. by simplify_eq/=. }
  destruct (String.eqb (property_name property) "readableBy") eqn:Hr;
    [|by simplify_eq].
  destruct (property_value property) as [| | | |s]; try done.
  destruct (truthy s); by simplify_eq.
Qed.

Lemma setProperty_readableBy objectName variable property variable' :
  setProperty JSON_stringify objectName variable property = inr variable' →
  (property_name property = "readableBy" → property_value property = JString "") →
  readableBy variable' = readableBy variable.
Proof.
  unfold setProperty. intros Hset Hempty.
  destruct (String.eqb (property_name property) "default") eqn:Hd;
    [by injection Hset as <-|].
  destruct (String.eqb (property_name property) "persist") eqn:Hp;
    [destruct (property_value property); by simplify_eq|].
  destruct (String.eqb (property_name property) "writableBy") eqn:Hw.
  { destruct (property_value property) as [| | | |s]; try done.
    destruct (truthy s); by simplify_eq. }
  destruct (String.eqb (property_name property) "readableBy") eqn:Hr;
    [|by simplify_eq].
  apply String.eqb_eq in Hr. rewrite (Hempty Hr) in Hset. by simplify_eq/=.
Qed.

(** Only a [default] property sets the default value. *)
Lemma setProperty_defaultValue objectName variable property variable' :
  setProperty JSON_stringify objectName variable property = inr variable' →
  defaultValue variable' =
    if String.eqb (property_name property) "default"
    then JSON_stringify (property_value property)
    else defaultValue variable.
Proof.
  unfold setProperty. intros Hset.
  destruct (String.eqb (property_name property) "default"); [by simplify_eq|].
  repeat case_match; by simplify_eq.
Qed.

(** After the loop the default value is the encoding of the last
    [default] property. *)
Lemma properties_defaultValue objectName properties variable variable' :
  forOf (setProperty JSON_stringify objectName) properties variable = inr variable' →
  defaultValue variable' =
    match lastNamed "default" properties with
    | Some property => JSON_stringify (property_value property)
    | None => defaultValue variable
    end.
Proof.
  revert variable. induction properties as [|p rest IH]; intros variable; simpl.
  - by intros [= <-].
  - destruct (setProperty JSON_stringify objectName variable p) as [e|v1] eqn:Hp; [done|].
    intros Hrest. rewrite (IH _ Hrest).
    destruct (lastNamed "default" rest); [done|].
    rewrite (setProperty_defaultValue _ _ _ _ Hp).
    by destruct (String.eqb (property_name p) "default").
Qed.

Lemma properties_writableBy objectName properties variable variable' :
  forOf (setProperty JSON_stringify objectName) properties variable = inr variable' →
  (∀ p, p ∈ properties → property_name p = "writableBy" → property_value p = JString "") →
  writableBy variable' = writableBy variable.
Proof.
  revert variable. induction properties as [|p rest IH]; intros variable; simpl.
  - by intros [= <-].
  - destruct (setProperty JSON_stringify objectName variable p) as [e|v1] eqn:Hp; [done|].
    intros Hrest Hempty. rewrite (IH _ Hrest).
    + eapply setProperty_writableBy; [done|]. apply Hempty. by left.
    + intros q Hq. apply Hempty. by right.
Qed.

Lemma properties_readableBy objectName properties variable variable' :
  forOf (setProperty JSON_stringify objectName) properties variable = inr variable' →
  (∀ p, p ∈ properties → property_name p = "readableBy" → property_value p = JString "") →
  readableBy variable' = readableBy variable.
Proof.
  revert variable. induction properties as [|p rest IH]; intros variable; simpl.
  - by intros [= <-].
  - destruct (setProperty JSON_stringify objectName variable p) as [e|v1] eqn:Hp; [done|].
    intros Hrest Hempty. rewrite (IH _ Hrest).
    + eapply setProperty_readableBy; [done|]. apply Hempty. by left.
    + intros q Hq. apply Hempty. by right.
Qed.

(** An object whose conversion throws aborts the extraction of the map
    it qualifies in, and with it the construction of the store. *)
Lemma qualifying_throws tiledMap object e :
  qualifying tiledMap object →
  iTiledObjectToVariable JSON_stringify object = inl e →
  ∃ e', findVariablesInMap JSON_stringify tiledMap = inl e' ∧
    ∀ url, constructor JSON_stringify url (Some tiledMap) = inl e'.
Proof.
  intros (layer & Hlayer & Htype & Hobject & Hvariable & Htemplate) Hthrow.
  assert (∀ s, ∃ e', collectLayer JSON_stringify s layer = inl e') as Hl.
  { intros s. unfold collectLayer. rewrite Htype. simpl.
    apply (forOf_throws _ _ object); [done|].
    intros s'. exists e. unfold collectObject.
    by rewrite Hvariable, Htemplate, Hthrow. }
  destruct (forOf_throws _ _ layer Hlayer Hl ∅) as [e' He'].
  exists e'. split; [done|]. intros url. unfold constructor.
  unfold findVariablesInMap. by rewrite He'.
Qed.

End PropertyRules.

(** ** The sample room *)

Lemma sampleStore_constructed :
  constructor JSON_stringify_scalar "room" (Some sampleMap) = inr sampleStore.
Proof. vm_compute. reflexivity. Qed.

Lemma bareStore_constructed :
  constructor JSON_stringify_scalar "room" None = inr bareStore.
Proof. reflexivity. Qed.

Lemma sampleStore_reachable env :
  reachable JSON_stringify_scalar env (newWorld sampleStore).
Proof. eapply reachable_new, sampleStore_constructed. Qed.

Lemma staleWorld_reachable : reachable JSON_stringify_scalar staleEnv staleWorld.
Proof. apply reachable_run, sampleStore_reachable. Qed.

(** The reading of a store depends on the instance only. *)
Lemma getVariablesForTags_this tags w w' :
  this w = this w' →
  fst (getVariablesForTags tags w) = fst (getVariablesForTags tags w').
Proof.
  intros Hthis.
  unfold getVariablesForTags, mbind at 1 3, M_bind, getThis, mret, M_ret, throw; simpl.
  rewrite Hthis. destruct (variableObjects (this w')); [|done].
  by destruct (map_fold _ _ _).
Qed.

(** Every call that returns makes exactly one call to [saveVariable],
    whatever the schema and the persistence policy say. *)
Lemma setVariable_always_saves name value user w r w' :
  setVariable name value user w = (inr r, w') →
  saveVariable_calls w' =
    (saveVariable_calls w ++
     [ {| save_roomUrl := roomUrl (this w); save_name := name; save_value := value |} ])%list.
Proof. by intros [-> _]%setVariable_return_state. Qed.

(** ** The scenario of the specification

    A player sets [score] to 42: the call returns [undefined] and every
    reader sees the new value; a guest is then refused and the value
    stays. *)
Lemma scenario_score :
  setVariable "score" "42" player (newWorld sampleStore)
  = (inr None, written "score" "42" (newWorld sampleStore))
  ∧ fst (getVariablesForTags [] (written "score" "42" (newWorld sampleStore)))
    = inr (<["score" := "42"]> ∅)
  ∧ setVariable "score" "0" guest (written "score" "42" (newWorld sampleStore))
    = (inl (InsufficientPermission "score" "bob" "player" ["guest"]),
       written "score" "42" (newWorld sampleStore)).
Proof. repeat split; vm_compute; reflexivity. Qed.

(** * The claims *)

(** C1 (the code departs from the claim). The claim forwards a successful
    write to [saveVariable] only for a variable marked [persist], or
    without schema when [shouldPersist()] allows it. The code calls
    [saveVariable] on every successful write: here for [note], declared
    with [persist] false, and for a room without map on a server without
    Redis, where [shouldPersist()] is false. *)
Theorem setVariable_saves_unpersisted :
  (sampleSchema !! "note" = Some noteVariable ∧ persist noteVariable = Some false ∧
   ∃ w', setVariable "note" "hello" guest (newWorld sampleStore) = (inr (Some "admin"), w') ∧
     saveVariable_calls w' =
       [ {| save_roomUrl := "room"; save_name := "note"; save_value := "hello" |} ])
  ∧
  (variableObjects bareStore = None ∧ shouldPersist offlineEnv bareStore = false ∧
   ∃ w', setVariable "x" "1" guest (newWorld bareStore) = (inr None, w') ∧
     saveVariable_calls w' =
       [ {| save_roomUrl := "room"; save_name := "x"; save_value := "1" |} ]).
Proof.
  split.
  - split; [by vm_compute|]. split; [done|].
    eexists. split; [by vm_compute|done].
  - split; [done|]. split; [by vm_compute|].
    eexists. split; [by vm_compute|done].
Qed.

(** C2 (the code departs from the claim). The claim keeps every key of
    the value map declared in the schema after any sequence of calls.
    [init] sets every loaded pair without looking at the schema: after
    [init] on the sample store, with saved data that still holds [ghost],
    the value map has the key [ghost], which the schema does not declare,
    and the reading of the store throws on it. *)
Theorem init_breaks_schema_invariant :
  reachable JSON_stringify_scalar staleEnv staleWorld ∧
  variableObjects (this staleWorld) = Some sampleSchema ∧
  _variables (this staleWorld) !! "ghost" = Some "1" ∧
  sampleSchema !! "ghost" = None ∧
  ¬ schema_invariant (this staleWorld).
Proof.
  split; [apply staleWorld_reachable|].
  split; [done|]. split; [by vm_compute|]. split; [by vm_compute|].
  intros Hinv. destruct (Hinv sampleSchema eq_refl "ghost") as [v Hv].
  - exists "1". by vm_compute.
  - vm_compute in Hv. discriminate.
Qed.

(** C3. In a store with a schema, a write to a declared variable whose
    definition has a [writableBy] tag, by a user who does not hold the
    tag, throws the authorization error, and the state after the call,
    the value map included, is the state before. *)
Theorem setVariable_unauthorized JSON_stringify env w objects name variableObject tag
    value user :
  reachable JSON_stringify env w →
  variableObjects (this w) = Some objects →
  objects !! name = Some variableObject →
  writableBy variableObject = Some tag →
  tag ∉ user_tags user →
  setVariable name value user w
  = (inl (InsufficientPermission name (user_name user) tag (user_tags user)), w)
  ∧ _variables (this (snd (setVariable name value user w))) = _variables (this w).
Proof.
  intros Hreach Hschema Hname Htag Hnot.
  destruct (reachable_schema _ _ _ Hreach) as [_ Htags].
  destruct (Htags objects Hschema name variableObject Hname) as [Hw _].
  assert (truthy tag = true) as Htruthy by (apply truthy_nonempty; congruence).
  assert (includes (user_tags user) tag = false) as Hincl
    by (by apply bool_decide_eq_false).
  rewrite setVariable_cases, Hschema, Hname, Htag, Htruthy, Hincl. done.
Qed.

Lemma setVariable_unauthorized_witness :
  setVariable "score" "42" guest (newWorld sampleStore)
  = (inl (InsufficientPermission "score" "bob" "player" ["guest"]), newWorld sampleStore)
  ∧ _variables (this (snd (setVariable "score" "42" guest (newWorld sampleStore))))
    = _variables sampleStore.
Proof.
  apply (setVariable_unauthorized JSON_stringify_scalar offlineEnv (newWorld sampleStore)
           sampleSchema "score" scoreVariable "player" "42" guest).
  - apply sampleStore_reachable.
  - reflexivity.
  - vm_compute. reflexivity.
  - reflexivity.
  - apply not_elem_of_cons. split; [discriminate|apply not_elem_of_nil].
Defined.

(** C4. [setVariable] throws the unknown variable error exactly when
    there is a schema and the name has no definition in it; without a
    schema it checks nothing and returns for every name. *)
Theorem setVariable_unknown_iff name value user w :
  ((∃ e, fst (setVariable name value user w) = inl e ∧ ∃ n, e = UndefinedVariable n)
   ↔ ∃ objects, variableObjects (this w) = Some objects ∧ objects !! name = None)
  ∧ (variableObjects (this w) = None →
     setVariable name value user w = (inr None, written name value w)).
Proof.
  rewrite setVariable_cases. split.
  - split.
    + intros (e & He & n & ->).
      destruct (variableObjects (this w)) as [objects|]; [|done].
      exists objects. split; [done|].
      destruct (objects !! name) as [variableObject|]; [|done].
      destruct (writableBy variableObject) as [tag|]; [|done].
      by destruct (truthy tag && negb (includes (user_tags user) tag)).
    + intros (objects & -> & ->). simpl. eauto.
  - by intros ->.
Qed.

Lemma setVariable_unknown_iff_witness :
  (∃ e, fst (setVariable "ghost" "1" player (newWorld sampleStore)) = inl e
        ∧ ∃ n, e = UndefinedVariable n)
  ∧ setVariable "ghost" "1" player (newWorld bareStore)
    = (inr None, written "ghost" "1" (newWorld bareStore)).
Proof.
  split.
  - apply (setVariable_unknown_iff "ghost" "1" player (newWorld sampleStore)).
    exists sampleSchema. split; [reflexivity|vm_compute; reflexivity].
  - apply (setVariable_unknown_iff "ghost" "1" player (newWorld bareStore)).
    reflexivity.
Defined.

(** C5 as stated fails: the sample store, once [init] has loaded a saved
    key that the schema does not declare, is a store with a schema whose
    reading returns no map at all: it throws on the undeclared key. *)
Lemma getVariablesForTags_throws_on_stale_key :
  reachable JSON_stringify_scalar staleEnv staleWorld ∧
  variableObjects (this staleWorld) = Some sampleSchema ∧
  getVariablesForTags [] staleWorld = (inl (UnexpectedVariable "ghost"), staleWorld) ∧
  ¬ ∃ readableVariables,
      fst (getVariablesForTags [] staleWorld) = inr readableVariables.
Proof.
  split; [apply staleWorld_reachable|]. split; [done|].
  assert (getVariablesForTags [] staleWorld
          = (inl (UnexpectedVariable "ghost"), staleWorld)) as Hthrow
    by (vm_compute; reflexivity).
  split; [done|]. rewrite Hthrow. by intros [? [=]].
Qed.

(** C5, amended. In a store with a schema in which every key of the value
    map is declared, [getVariablesForTags] returns exactly the entries of
    the value map whose definition has no [readableBy] restriction or has
    one that is among the tags; in a store without schema it returns the
    whole value map, for every tag set. *)
Theorem getVariablesForTags_visible JSON_stringify env w tags :
  reachable JSON_stringify env w →
  (∀ objects, variableObjects (this w) = Some objects →
     schema_invariant (this w) →
     ∃ readableVariables,
       getVariablesForTags tags w = (inr readableVariables, w) ∧
       ∀ key value, readableVariables !! key = Some value ↔
         _variables (this w) !! key = Some value ∧ visible objects tags key)
  ∧ (variableObjects (this w) = None →
     getVariablesForTags tags w = (inr (_variables (this w)), w)).
Proof.
  intros Hreach. destruct (reachable_schema _ _ _ Hreach) as [_ Htags]. split.
  - intros objects Hschema Hinv.
    by apply getVariablesForTags_declared; [|apply Htags|].
  - apply getVariablesForTags_schemaless.
Qed.

Lemma getVariablesForTags_visible_witness :
  (∃ readableVariables,
     getVariablesForTags ["guest"]
       (run offlineEnv (OpSetVariable "note" "hello" guest) (newWorld sampleStore))
     = (inr readableVariables,
        run offlineEnv (OpSetVariable "note" "hello" guest) (newWorld sampleStore)) ∧
     readableVariables !! "score" = Some "0" ∧
     readableVariables !! "note" = None)
  ∧ (∃ readableVariables,
       getVariablesForTags ["admin"]
         (run offlineEnv (OpSetVariable "note" "hello" guest) (newWorld sampleStore))
       = (inr readableVariables,
          run offlineEnv (OpSetVariable "note" "hello" guest) (newWorld sampleStore)) ∧
       readableVariables !! "score" = Some "0" ∧
       readableVariables !! "note" = Some "hello")
  ∧ getVariablesForTags ["guest"]
      (run offlineEnv (OpSetVariable "secret" "1" guest) (newWorld bareStore))
    = (inr (<["secret" := "1"]> ∅),
       run offlineEnv (OpSetVariable "secret" "1" guest) (newWorld bareStore)).
Proof.
  assert (reachable JSON_stringify_scalar offlineEnv
            (run offlineEnv (OpSetVariable "note" "hello" guest) (newWorld sampleStore)))
    as Hreach by apply reachable_run, sampleStore_reachable.
  assert (schema_invariant
            (this (run offlineEnv (OpSetVariable "note" "hello" guest)
                     (newWorld sampleStore)))) as Hinv.
  { apply setVariable_invariant.
    apply (constructor_invariant JSON_stringify_scalar "room" (Some sampleMap)).
    vm_compute. reflexivity. }
  assert (sampleSchema !! "score" = Some scoreVariable) as Hscore
    by (vm_compute; reflexivity).
  assert (sampleSchema !! "note" = Some noteVariable) as Hnote
    by (vm_compute; reflexivity).
  split; [|split].
  - destruct (getVariablesForTags_visible JSON_stringify_scalar offlineEnv _ ["guest"]
                Hreach) as [Hschema _].
    destruct (Hschema sampleSchema eq_refl Hinv) as (result & Hread & Hentries).
    exists result. split; [exact Hread|]. split.
    + apply Hentries. split; [vm_compute; reflexivity|].
      exists scoreVariable. split; [exact Hscore|]. left. reflexivity.
    + destruct (result !! "note") as [value|] eqn:Hvalue; [|reflexivity].
      apply Hentries in Hvalue as [_ (variableObject & Hdef & Hvisible)].
      rewrite Hnote in Hdef. injection Hdef as <-.
      destruct Hvisible as [Hnone|(tag & Htag & Hin)]; [discriminate Hnone|].
      injection Htag as <-.
      apply list_elem_of_singleton in Hin. discriminate Hin.
  - destruct (getVariablesForTags_visible JSON_stringify_scalar offlineEnv _ ["admin"]
                Hreach) as [Hschema _].
    destruct (Hschema sampleSchema eq_refl Hinv) as (result & Hread & Hentries).
    exists result. split; [exact Hread|]. split.
    + apply Hentries. split; [vm_compute; reflexivity|].
      exists scoreVariable. split; [exact Hscore|]. left. reflexivity.
    + apply Hentries. split; [vm_compute; reflexivity|].
      exists noteVariable. split; [exact Hnote|]. right.
      exists "admin". split; [reflexivity|]. apply list_elem_of_singleton. reflexivity.
  - destruct (getVariablesForTags_visible JSON_stringify_scalar offlineEnv
                (run offlineEnv (OpSetVariable "secret" "1" guest) (newWorld bareStore))
                ["guest"]) as [_ Hbare].
    + apply reachable_run. apply (reachable_new _ _ "room" None). reflexivity.
    + rewrite Hbare by reflexivity. vm_compute. reflexivity.
Defined.

(** C6. A call to [setVariable] that returns gives back the [readableBy]
    tag of the definition of the variable: nothing when the definition
    has no [readableBy], and nothing when the store has no schema. *)
Theorem setVariable_returns_readableBy name value user w r w' :
  setVariable name value user w = (inr r, w') →
  (∀ objects, variableObjects (this w) = Some objects →
     ∃ variableObject, objects !! name = Some variableObject ∧
       r = readableBy variableObject ∧
       (readableBy variableObject = None → r = None))
  ∧ (variableObjects (this w) = None → r = None).
Proof.
  intros Hset. pose proof Hset as [_ ->]%setVariable_return_state.
  rewrite setVariable_cases in Hset. split.
  - intros objects Hschema. rewrite Hschema in *.
    destruct (objects !! name) as [variableObject|]; [|done].
    exists variableObject. simpl. by repeat split.
  - by intros ->.
Qed.

Lemma setVariable_returns_readableBy_witness :
  (∃ variableObject, sampleSchema !! "note" = Some variableObject ∧
     Some "admin" = readableBy variableObject ∧
     (readableBy variableObject = None → Some "admin" = None))
  ∧ (∃ variableObject, sampleSchema !! "score" = Some variableObject ∧
     None = readableBy variableObject ∧
     (readableBy variableObject = None → @None string = None)).
Proof.
  split.
  - apply (setVariable_returns_readableBy "note" "hello" guest (newWorld sampleStore)
             (Some "admin") (written "note" "hello" (newWorld sampleStore))).
    + vm_compute. reflexivity.
    + reflexivity.
  - apply (setVariable_returns_readableBy "score" "42" player (newWorld sampleStore)
             None (written "score" "42" (newWorld sampleStore))).
    + vm_compute. reflexivity.
    + reflexivity.
Defined.

(** C7. For an object that qualifies in the map: a [persist] property
    that is not a boolean, and a [writableBy] or [readableBy] property
    that is not a string, make the conversion of the object throw and
    abort the extraction and the construction of the store; an empty
    [writableBy] or [readableBy] changes nothing, so that an object whose
    properties of that name are all empty has the restriction unset; and
    the default value is [JSON.stringify] of the value of the (last)
    [default] property. *)
Theorem schema_property_rules JSON_stringify tiledMap object properties :
  qualifying tiledMap object →
  object_properties object = Some properties →
  (∀ property, property ∈ properties →
     (property_name property = "persist" ∧ typeof (property_value property) ≠ TBoolean)
     ∨ (property_name property = "writableBy" ∧ typeof (property_value property) ≠ TString)
     ∨ (property_name property = "readableBy" ∧ typeof (property_value property) ≠ TString) →
     (∃ e, iTiledObjectToVariable JSON_stringify object = inl e) ∧
     ∃ e, findVariablesInMap JSON_stringify tiledMap = inl e ∧
       ∀ url, constructor JSON_stringify url (Some tiledMap) = inl e)
  ∧ (∀ property variable,
       property_name property = "writableBy" ∨ property_name property = "readableBy" →
       property_value property = JString "" →
       setProperty JSON_stringify (object_name object) variable property = inr variable)
  ∧ (∀ variable, iTiledObjectToVariable JSON_stringify object = inr variable →
       ((∀ property, property ∈ properties → property_name property = "writableBy" →
           property_value property = JString "") → writableBy variable = None)
       ∧ ((∀ property, property ∈ properties → property_name property = "readableBy" →
           property_value property = JString "") → readableBy variable = None)
       ∧ (∀ property, lastNamed "default" properties = Some property →
           defaultValue variable = JSON_stringify (property_value property))).
Proof.
  intros Hqualifying Hproperties.
  unfold iTiledObjectToVariable. rewrite Hproperties. split; [|split].
  - intros property Hin Hbad.
    assert (∃ e, forOf (setProperty JSON_stringify (object_name object))
                   properties emptyVariable = inl e) as [e He].
    { apply (forOf_throws _ _ property); [done|]. intros variable.
      destruct Hbad as [[Hname Htype]|[[Hname Htype]|[Hname Htype]]]; eexists.
      - by apply setProperty_persist_type.
      - by apply setProperty_writableBy_type.
      - by apply setProperty_readableBy_type. }
    split; [by exists e|].
    apply (qualifying_throws JSON_stringify tiledMap object e Hqualifying).
    unfold iTiledObjectToVariable. by rewrite Hproperties.
  - intros property variable. apply setProperty_empty_tag.
  - intros variable Hloop. split; [|split].
    + intros Hempty. by rewrite (properties_writableBy _ _ _ _ _ Hloop Hempty).
    + intros Hempty. by rewrite (properties_readableBy _ _ _ _ _ Hloop Hempty).
    + intros property Hlast.
      by rewrite (properties_defaultValue _ _ _ _ _ Hloop), Hlast.
Qed.

Lemma scoreObject_qualifying : qualifying sampleMap scoreObject.
Proof.
  exists sampleLayer. split; [|split; [|split; [|split]]]; try reflexivity.
  - apply list_elem_of_In. right. left. reflexivity.
  - apply list_elem_of_In. left. reflexivity.
Qed.

Lemma flagObject_qualifying : qualifying brokenMap flagObject.
Proof.
  exists {| layer_type := "objectgroup"; layer_objects := [scoreObject; flagObject] |}.
  split; [|split; [|split; [|split]]]; try reflexivity.
  - apply list_elem_of_In. left. reflexivity.
  - apply list_elem_of_In. right. left. reflexivity.
Qed.

Lemma schema_property_rules_witness :
  (∃ e, findVariablesInMap JSON_stringify_scalar brokenMap = inl e ∧
     ∀ url, constructor JSON_stringify_scalar url (Some brokenMap) = inl e)
  ∧ readableBy scoreVariable = None
  ∧ defaultValue scoreVariable = Some "0".
Proof.
  split; [|split].
  - eapply (schema_property_rules JSON_stringify_scalar brokenMap flagObject).
    + apply flagObject_qualifying.
    + reflexivity.
    + apply list_elem_of_In. right. left. reflexivity.
    + left. split; [reflexivity|discriminate].
  - destruct (schema_property_rules JSON_stringify_scalar sampleMap scoreObject _
                scoreObject_qualifying eq_refl) as (_ & _ & Hrules).
    destruct (Hrules scoreVariable) as (_ & Hreadable & _); [vm_compute; reflexivity|].
    apply Hreadable. intros property Hin Hname.
    apply list_elem_of_In in Hin.
    destruct Hin as [<-|[<-|[<-|[<-|[]]]]]; try discriminate Hname. reflexivity.
  - destruct (schema_property_rules JSON_stringify_scalar sampleMap scoreObject _
                scoreObject_qualifying eq_refl) as (_ & _ & Hrules).
    destruct (Hrules scoreVariable) as (_ & _ & Hdefault); [vm_compute; reflexivity|].
    apply (Hdefault {| property_name := "default"; property_value := JNumber 0 |}).
    reflexivity.
Defined.

(** C8. [shouldPersist()] is true exactly when a Redis client is
    configured and the room has a map or the process runs in development
    mode. When it is false, [init()] completes and changes nothing. When
    it is true, [init()] sets every pair loaded for the room: the value
    map then holds each loaded pair, in place of the seeded default of
    the same name if there was one, and the names that were not loaded
    keep their value; nothing else changes. *)
Theorem persistence_policy env w :
  (shouldPersist env (this w) = true ↔
     is_Some (redisClient env) ∧
     (is_Some (map (this w)) ∨ NODE_ENV env = Some "development"))
  ∧ (shouldPersist env (this w) = false → init env w = (inr (), w))
  ∧ (∀ variables,
       shouldPersist env (this w) = true →
       loadVariables env (roomUrl (this w)) = inr variables →
       ∃ w', init env w = (inr (), w') ∧
         (∀ name value, variables !! name = Some value →
            _variables (this w') !! name = Some value) ∧
         (∀ name, variables !! name = None →
            _variables (this w') !! name = _variables (this w) !! name) ∧
         variableObjects (this w') = variableObjects (this w) ∧
         saveVariable_calls w' = saveVariable_calls w).
Proof.
  split; [|split].
  - unfold shouldPersist.
    rewrite andb_true_iff, orb_true_iff, !bool_decide_eq_true. done.
  - intros Hoff. by rewrite init_cases, Hoff.
  - intros variables Hon Hload. rewrite init_cases, Hon, Hload.
    eexists. split; [done|]. simpl. split; [|split; [|done]].
    + intros name value Hname. by apply lookup_union_Some_l.
    + intros name Hname. by apply lookup_union_r.
Qed.

Lemma persistence_policy_witness :
  shouldPersist staleEnv sampleStore = true
  ∧ init offlineEnv (newWorld sampleStore) = (inr (), newWorld sampleStore)
  ∧ ∃ w', init staleEnv (newWorld sampleStore) = (inr (), w') ∧
      _variables (this w') !! "score" = Some "7" ∧
      _variables (this w') !! "note" = _variables sampleStore !! "note".
Proof.
  split; [|split].
  - apply (persistence_policy staleEnv (newWorld sampleStore)).
    split; [by eexists|]. left. by eexists.
  - apply (persistence_policy offlineEnv (newWorld sampleStore)).
    vm_compute. reflexivity.
  - destruct (persistence_policy staleEnv (newWorld sampleStore))
      as (_ & _ & Hload).
    destruct (Hload (<["ghost" := "1"]> (<["score" := "7"]> ∅)))
      as (w' & Hinit & Hloaded & Hkept & _).
    + vm_compute. reflexivity.
    + reflexivity.
    + exists w'. split; [exact Hinit|]. split.
      * apply Hloaded. vm_compute. reflexivity.
      * apply Hkept. vm_compute. reflexivity.
Defined.

(** C9. When [setVariable(name, v, user)] returns, calling it again with
    the same arguments returns the same result and leaves the same
    instance, so that [getVariablesForTags] gives the same result for
    every tag set after two calls as after one. *)
Theorem setVariable_idempotent name value user w r w1 :
  setVariable name value user w = (inr r, w1) →
  ∃ w2, setVariable name value user w1 = (inr r, w2) ∧
    this w2 = this w1 ∧
    ∀ tags, fst (getVariablesForTags tags w2) = fst (getVariablesForTags tags w1).
Proof.
  intros Hset. pose proof Hset as [-> _]%setVariable_return_state.
  assert (this (written name value (written name value w))
          = this (written name value w)) as Hthis.
  { unfold written; simpl. by rewrite insert_insert_eq. }
  exists (written name value (written name value w)).
  split; [|split; [done|]].
  - rewrite setVariable_cases in Hset |- *. simpl.
    destruct (variableObjects (this w)) as [objects|]; [|by simplify_eq].
    destruct (objects !! name) as [variableObject|]; [|done].
    destruct (writableBy variableObject) as [tag|]; [|by simplify_eq].
    destruct (truthy tag && negb (includes (user_tags user) tag)); [done|].
    by simplify_eq.
  - intros tags. by apply getVariablesForTags_this.
Qed.

Lemma setVariable_idempotent_witness :
  ∃ w2, setVariable "score" "42" player (written "score" "42" (newWorld sampleStore))
        = (inr None, w2) ∧
    this w2 = this (written "score" "42" (newWorld sampleStore)) ∧
    ∀ tags, fst (getVariablesForTags tags w2)
            = fst (getVariablesForTags tags (written "score" "42" (newWorld sampleStore))).
Proof.
  apply (setVariable_idempotent "score" "42" player (newWorld sampleStore)).
  vm_compute. reflexivity.
Defined.

(** C10. A call to [setVariable] that returns changes the value of no
    other name, and changes neither the schema nor the map and the room
    of the instance. *)
Theorem setVariable_frame name value user w r w' :
  setVariable name value user w = (inr r, w') →
  (∀ other, other ≠ name →
     _variables (this w') !! other = _variables (this w) !! other)
  ∧ variableObjects (this w') = variableObjects (this w)
  ∧ map (this w') = map (this w)
  ∧ roomUrl (this w') = roomUrl (this w).
Proof.
  intros [-> _]%setVariable_return_state. split; [|done].
  intros other Hother. simpl. by rewrite lookup_insert_ne.
Qed.

Lemma setVariable_frame_witness :
  (∀ other, other ≠ "note" →
     _variables (this (written "note" "hello" (newWorld sampleStore))) !! other
     = _variables sampleStore !! other)
  ∧ variableObjects (this (written "note" "hello" (newWorld sampleStore)))
    = Some sampleSchema
  ∧ map (this (written "note" "hello" (newWorld sampleStore))) = Some sampleMap
  ∧ roomUrl (this (written "note" "hello" (newWorld sampleStore))) = "room".
Proof.
  apply (setVariable_frame "note" "hello" guest (newWorld sampleStore) (Some "admin")).
  vm_compute. reflexivity.
Defined.

(** * Further properties of the extraction *)

(** A loop over a concatenation is the loop over the first part followed
    by the loop over the second. *)
Lemma forOf_app {A S : Type} (body : S → A → Throws S) l1 l2 s :
  forOf body (l1 ++ l2) s =
    match forOf body l1 s with
    | inl e => inl e
    | inr s' => forOf body l2 s'
    end.
Proof.
  revert s. induction l1 as [|x rest IH]; intros s; simpl; [done|].
  by destruct (body s x).
Qed.

(** The error of a loop is the error of one of its rounds. *)
Lemma forOf_error {A S : Type} (body : S → A → Throws S) l s e :
  forOf body l s = inl e → ∃ x s', x ∈ l ∧ body s' x = inl e.
Proof.
  revert s. induction l as [|x rest IH]; intros s; simpl; [done|].
  destruct (body s x) as [e'|s1] eqn:Hx.
  - intros [= <-]. exists x, s. split; [by left|done].
  - intros (y & s' & Hy & He)%IH. exists y, s'. split; [by right|done].
Qed.

(** A loop whose rounds all complete completes. *)
Lemma forOf_completes {A S : Type} (body : S → A → Throws S) l :
  (∀ s x, x ∈ l → ∃ s', body s x = inr s') →
  ∀ s, ∃ s', forOf body l s = inr s'.
Proof.
  induction l as [|x rest IH]; intros Hbody s; simpl; [by eexists|].
  destruct (Hbody s x) as [s1 ->]; [by left|].
  apply IH. intros s' y Hy. apply Hbody. by right.
Qed.

Section Extraction.

Variable JSON_stringify : JsValue → option string.

(** The conversion of an object and its entry in the schema, as
    [collectObject] does them once the object has passed its test. *)
Lemma collectObject_cases objects object :
  collectObject JSON_stringify objects object =
    if isVariableObject object then
      match iTiledObjectToVariable JSON_stringify object with
      | inl e => inl e
      | inr variable => inr (<[object_name object := variable]> objects)
      end
    else inr objects.
Proof.
  unfold collectObject, isVariableObject.
  destruct (String.eqb _ _); [|done].
  by destruct (truthy_opt _).
Qed.

(** The two loops of the extraction are one loop over the objects that
    pass the tests. *)
Lemma findVariablesInMap_flat tiledMap :
  findVariablesInMap JSON_stringify tiledMap =
    forOf (declareObject JSON_stringify) (variableObjectsOf tiledMap) ∅.
Proof.
  unfold findVariablesInMap, variableObjectsOf.
  generalize (∅ : gmap string VariableObject).
  induction (layers tiledMap) as [|layer rest IH]; intros objects; simpl; [done|].
  rewrite forOf_app. unfold collectLayer at 1.
  destruct (String.eqb (layer_type layer) "objectgroup"); simpl; [|apply IH].
  assert (∀ l s,
    forOf (collectObject JSON_stringify) l s =
    forOf (declareObject JSON_stringify) (List.filter isVariableObject l) s) as Hinner.
  { induction l as [|object l IHl]; intros s; simpl; [done|].
    rewrite collectObject_cases.
    destruct (isVariableObject object); simpl; [|apply IHl].
    unfold declareObject at 1.
    destruct (iTiledObjectToVariable JSON_stringify object); [done|apply IHl]. }
  rewrite Hinner.
  destruct (forOf _ (List.filter _ _) objects); [done|apply IH].
Qed.

(** The objects that the extraction converts are the qualifying ones. *)
Lemma variableObjectsOf_qualifying tiledMap object :
  object ∈ variableObjectsOf tiledMap ↔ qualifying tiledMap object.
Proof.
  unfold variableObjectsOf, qualifying.
  rewrite list_elem_of_In, in_flat_map. split.
  - intros (layer & Hlayer & Hobject).
    destruct (String.eqb (layer_type layer) "objectgroup") eqn:Htype; [|done].
    apply filter_In in Hobject as [Hobject Htest].
    apply andb_true_iff in Htest as [Hvariable Htemplate].
    exists layer. rewrite !list_elem_of_In.
    apply String.eqb_eq in Htype, Hvariable. apply negb_true_iff in Htemplate.
    done.
  - intros (layer & Hlayer & Htype & Hobject & Hvariable & Htemplate).
    exists layer. rewrite list_elem_of_In in Hlayer. split; [done|].
    rewrite Htype. simpl. apply filter_In. rewrite list_elem_of_In in Hobject.
    split; [done|]. unfold isVariableObject. by rewrite Hvariable, Htemplate.
Qed.

(** After the flat loop, the entry of a name is the conversion of the
    last object of that name, or the entry it had before. *)
Lemma declareObject_loop_lookup (l : list ITiledMapObject)
    (objects objects' : gmap string VariableObject) name :
  forOf (declareObject JSON_stringify) l objects = inr objects' →
  objects' !! name =
    match lastObjectNamed name l with
    | Some object =>
        match iTiledObjectToVariable JSON_stringify object with
        | inr variable => Some variable
        | inl _ => None
        end
    | None => objects !! name
    end.
Proof.
  revert objects. induction l as [|object rest IH]; intros objects; simpl.
  - by intros [= <-].
  - unfold declareObject at 1.
    destruct (iTiledObjectToVariable JSON_stringify object) as [e|variable] eqn:Hv; [done|].
    intros Hrest. rewrite (IH _ Hrest).
    destruct (lastObjectNamed name rest); [done|].
    destruct (String.eqb (object_name object) name) eqn:Hname.
    + apply String.eqb_eq in Hname as <-. by rewrite Hv, lookup_insert_eq.
    + apply String.eqb_neq in Hname. by rewrite lookup_insert_ne.
Qed.

(** The last object of a name is an object of the list, of that name,
    and there is one as soon as the list has an object of that name. *)
Lemma lastObjectNamed_Some name l object :
  lastObjectNamed name l = Some object → object ∈ l ∧ object_name object = name.
Proof.
  induction l as [|o rest IH]; simpl; [done|].
  destruct (lastObjectNamed name rest) as [later|].
  - intros [= <-]. destruct IH as [Hin Hname]; [done|]. split; [by right|done].
  - destruct (String.eqb (object_name o) name) eqn:Hname; [|done].
    intros [= <-]. apply String.eqb_eq in Hname. split; [by left|done].
Qed.

Lemma lastObjectNamed_None name l object :
  lastObjectNamed name l = None → object ∈ l → object_name object ≠ name.
Proof.
  induction l as [|o rest IH]; simpl; [by intros _ ?%elem_of_nil|].
  destruct (lastObjectNamed name rest) as [later|]; [done|].
  destruct (String.eqb (object_name o) name) eqn:Hname; [done|].
  intros _ [->|Hin]%elem_of_cons; [by apply String.eqb_neq|by apply IH].
Qed.

(** Which rounds of the loop over the properties throw, and what. *)
Lemma setProperty_wellTyped objectName variable property :
  if wellTyped property
  then ∃ variable', setProperty JSON_stringify objectName variable property = inr variable'
  else (property_name property = "persist" ∧
        setProperty JSON_stringify objectName variable property
        = inl (PersistNotBoolean objectName))
       ∨ (property_name property = "writableBy" ∧
          setProperty JSON_stringify objectName variable property
          = inl (WritableByNotString objectName))
       ∨ (property_name property = "readableBy" ∧
          setProperty JSON_stringify objectName variable property
          = inl (ReadableByNotString objectName)).
Proof.
  unfold wellTyped, setProperty.
  destruct (String.eqb (property_name property) "default") eqn:Hd; [by eexists|].
  destruct (String.eqb (property_name property) "persist") eqn:Hp.
  { apply String.eqb_eq in Hp.
    destruct (property_value property); simpl; eauto. }
  destruct (String.eqb (property_name property) "writableBy") eqn:Hw.
  { apply String.eqb_eq in Hw.
    destruct (property_value property) as [| | | |s]; simpl; eauto 6.
    destruct (truthy s); eauto. }
  destruct (String.eqb (property_name property) "readableBy") eqn:Hr; [|by eexists].
  apply String.eqb_eq in Hr.
  destruct (property_value property) as [| | | |s]; simpl; eauto 6.
  destruct (truthy s); eauto.
Qed.

(** The conversion of an object completes exactly when all its
    properties have the type asked of them. *)
Lemma iTiledObjectToVariable_completes object :
  (∃ variable, iTiledObjectToVariable JSON_stringify object = inr variable)
  ↔ ∀ properties, object_properties object = Some properties →
      ∀ property, property ∈ properties → wellTyped property = true.
Proof.
  unfold iTiledObjectToVariable.
  destruct (object_properties object) as [properties|]; [|split; [done|by eexists]].
  split.
  - intros [variable Hloop] ? [= <-] property Hin.
    destruct (wellTyped property) eqn:Htyped; [done|].
    destruct (forOf_throws (setProperty JSON_stringify (object_name object))
                properties property Hin) with (s := emptyVariable) as [e He];
      [|congruence].
    intros variable'.
    pose proof (setProperty_wellTyped (object_name object) variable' property) as H.
    rewrite Htyped in H. destruct H as [[_ ->]|[[_ ->]|[_ ->]]]; by eexists.
  - intros Htyped. apply forOf_completes. intros variable property Hin.
    pose proof (setProperty_wellTyped (object_name object) variable property) as H.
    by rewrite (Htyped properties eq_refl property Hin) in H.
Qed.

End Extraction.

Section ExtractionProperties.

Variable JSON_stringify : JsValue → option string.

(** When the flat loop completes, every object it met has converted. *)
Lemma declareObject_loop_converts (l : list ITiledMapObject)
    (objects objects' : gmap string VariableObject) object :
  forOf (declareObject JSON_stringify) l objects = inr objects' →
  object ∈ l →
  ∃ variable, iTiledObjectToVariable JSON_stringify object = inr variable.
Proof.
  intros Hloop Hin.
  destruct (iTiledObjectToVariable JSON_stringify object) as [e|variable] eqn:Hv;
    [|by eexists].
  destruct (forOf_throws (declareObject JSON_stringify) l object Hin)
    with (s := objects) as [e' He']; [|congruence].
  intros s. exists e. unfold declareObject. by rewrite Hv.
Qed.

(** The field that a round of the loop over the properties leaves in
    each place of the definition. *)
Lemma setProperty_fields objectName variable property variable' :
  setProperty JSON_stringify objectName variable property = inr variable' →
  persist variable' =
    match lastPersist [property] with
    | Some b => Some b
    | None => persist variable
    end
  ∧ writableBy variable' =
    match lastTag "writableBy" [property] with
    | Some tag => Some tag
    | None => writableBy variable
    end
  ∧ readableBy variable' =
    match lastTag "readableBy" [property] with
    | Some tag => Some tag
    | None => readableBy variable
    end.
Proof.
  unfold setProperty; simpl.
  destruct (String.eqb (property_name property) "default") eqn:Hd.
  { apply String.eqb_eq in Hd. rewrite Hd. simpl. by intros [= <-]. }
  destruct (String.eqb (property_name property) "persist") eqn:Hp.
  { apply String.eqb_eq in Hp. rewrite Hp. simpl.
    destruct (property_value property); try done. by intros [= <-]. }
  destruct (String.eqb (property_name property) "writableBy") eqn:Hw.
  { apply String.eqb_eq in Hw. rewrite Hw. simpl.
    destruct (property_value property) as [| | | |s]; try done.
    destruct (truthy s); by intros [= <-]. }
  destruct (String.eqb (property_name property) "readableBy") eqn:Hr;
    [|by intros [= <-]].
  destruct (property_value property) as [| | | |s]; try done.
  destruct (truthy s); by intros [= <-].
Qed.

Lemma properties_fields objectName properties variable variable' :
  forOf (setProperty JSON_stringify objectName) properties variable = inr variable' →
  persist variable' =
    match lastPersist properties with
    | Some b => Some b
    | None => persist variable
    end
  ∧ writableBy variable' =
    match lastTag "writableBy" properties with
    | Some tag => Some tag
    | None => writableBy variable
    end
  ∧ readableBy variable' =
    match lastTag "readableBy" properties with
    | Some tag => Some tag
    | None => readableBy variable
    end.
Proof.
  revert variable. induction properties as [|p rest IH]; intros variable.
  - by intros [= <-].
  - cbn [forOf].
    destruct (setProperty JSON_stringify objectName variable p) as [e|v1] eqn:Hp; [done|].
    intros (Hpersist & Hwritable & Hreadable)%IH.
    apply setProperty_fields in Hp as (Hp1 & Hw1 & Hr1).
    rewrite Hpersist, Hwritable, Hreadable, Hp1, Hw1, Hr1.
    cbn [lastPersist lastTag].
    destruct (lastPersist rest), (lastTag "writableBy" rest),
      (lastTag "readableBy" rest); done.
Qed.

End ExtractionProperties.

(** * Further properties: the schema *)

(** X1. When the extraction completes, the names it declares are exactly
    the names of the qualifying objects of the map: objects of another
    type, objects made from a template and objects of layers that are not
    object layers declare nothing. *)
Theorem schema_declares_qualifying JSON_stringify tiledMap
    (objects : gmap string VariableObject) name :
  findVariablesInMap JSON_stringify tiledMap = inr objects →
  is_Some (objects !! name)
  ↔ ∃ object, qualifying tiledMap object ∧ object_name object = name.
Proof.
  rewrite findVariablesInMap_flat. intros Hloop.
  rewrite (declareObject_loop_lookup _ _ _ _ name Hloop), lookup_empty.
  destruct (lastObjectNamed name (variableObjectsOf tiledMap)) as [object|] eqn:Hlast.
  - apply lastObjectNamed_Some in Hlast as [Hin Hname].
    destruct (declareObject_loop_converts _ _ _ _ object Hloop Hin) as [variable ->].
    split; [|by eexists]. intros _. exists object.
    by rewrite <- variableObjectsOf_qualifying.
  - split; [by intros [? [=]]|]. intros (object & Hq & Hname).
    apply variableObjectsOf_qualifying in Hq.
    by destruct (lastObjectNamed_None _ _ _ Hlast Hq).
Qed.

Lemma schema_declares_qualifying_witness :
  is_Some (sampleSchema !! "score")
  ↔ ∃ object, qualifying sampleMap object ∧ object_name object = "score".
Proof.
  apply (schema_declares_qualifying JSON_stringify_scalar sampleMap sampleSchema "score").
  vm_compute. reflexivity.
Defined.

(** X2. When several qualifying objects bear the same name, the schema
    holds the definition of the last one in the order of the layers and
    of their objects: the definition of a name is the conversion of the
    last qualifying object of that name. *)
Theorem schema_last_object_wins JSON_stringify tiledMap
    (objects : gmap string VariableObject) name variable :
  findVariablesInMap JSON_stringify tiledMap = inr objects →
  objects !! name = Some variable
  ↔ ∃ object, lastObjectNamed name (variableObjectsOf tiledMap) = Some object ∧
      iTiledObjectToVariable JSON_stringify object = inr variable.
Proof.
  rewrite findVariablesInMap_flat. intros Hloop.
  rewrite (declareObject_loop_lookup _ _ _ _ name Hloop), lookup_empty.
  destruct (lastObjectNamed name (variableObjectsOf tiledMap)) as [object|].
  - split.
    + destruct (iTiledObjectToVariable JSON_stringify object) eqn:Hv; [done|].
      intros [= <-]. by exists object.
    + by intros (? & [= <-] & ->).
  - split; [done|]. by intros (? & [=] & _).
Qed.

(** X3. The extraction, and with it the construction of a store for a
    map, completes exactly when every property of every qualifying object
    has the type that its name asks for; a store without map is always
    constructed. *)
Theorem construction_completes_iff JSON_stringify url tiledMap :
  ((∃ self, constructor JSON_stringify url (Some tiledMap) = inr self)
   ↔ ∀ object properties property,
       qualifying tiledMap object →
       object_properties object = Some properties →
       property ∈ properties → wellTyped property = true)
  ∧ ∃ self, constructor JSON_stringify url None = inr self.
Proof.
  split; [|by eexists].
  assert ((∃ self, constructor JSON_stringify url (Some tiledMap) = inr self)
          ↔ ∃ objects, findVariablesInMap JSON_stringify tiledMap = inr objects) as ->.
  { unfold constructor.
    destruct (findVariablesInMap JSON_stringify tiledMap); simpl.
    - split; by intros [? [=]].
    - split; intros _; by eexists. }
  rewrite findVariablesInMap_flat. split.
  - intros [objects Hloop] object properties property Hq Hproperties Hin.
    apply variableObjectsOf_qualifying in Hq.
    destruct (declareObject_loop_converts _ _ _ _ object Hloop Hq) as [variable Hv].
    apply (proj1 (iTiledObjectToVariable_completes JSON_stringify object)
             (ex_intro _ variable Hv) properties Hproperties property Hin).
  - intros Htyped. apply forOf_completes. intros s object Hin.
    apply variableObjectsOf_qualifying in Hin. unfold declareObject.
    destruct (proj2 (iTiledObjectToVariable_completes JSON_stringify object))
      as [variable ->]; [|by eexists].
    intros properties Hproperties property Hp.
    by apply (Htyped object properties property).
Qed.

(** X4. The error of an extraction that throws names a qualifying object
    of the map, and that object has a property of the wrong type whose
    name is the one the error is about. *)
Theorem extraction_error_names_object JSON_stringify tiledMap e :
  findVariablesInMap JSON_stringify tiledMap = inl e →
  ∃ object properties property,
    qualifying tiledMap object ∧
    object_properties object = Some properties ∧
    property ∈ properties ∧ wellTyped property = false ∧
    ((property_name property = "persist"
      ∧ e = PersistNotBoolean (object_name object))
     ∨ (property_name property = "writableBy"
        ∧ e = WritableByNotString (object_name object))
     ∨ (property_name property = "readableBy"
        ∧ e = ReadableByNotString (object_name object))).
Proof.
  rewrite findVariablesInMap_flat.
  intros (object & s & Hin & Hthrow)%forOf_error.
  apply variableObjectsOf_qualifying in Hin.
  unfold declareObject in Hthrow.
  destruct (iTiledObjectToVariable JSON_stringify object) as [e'|] eqn:Hv; [|done].
  injection Hthrow as ->. unfold iTiledObjectToVariable in Hv.
  destruct (object_properties object) as [properties|] eqn:Hproperties; [|done].
  apply forOf_error in Hv as (property & variable & Hproperty & Hv).
  exists object, properties, property.
  pose proof (setProperty_wellTyped JSON_stringify (object_name object)
                variable property) as Hcases.
  destruct (wellTyped property).
  - destruct Hcases as [? ?]. congruence.
  - repeat (split; [done|]).
    destruct Hcases as [[Hname He]|[[Hname He]|[Hname He]]];
      rewrite He in Hv; injection Hv as <-; eauto.
Qed.

Lemma extraction_error_names_object_witness :
  ∃ object properties property,
    qualifying brokenMap object ∧
    object_properties object = Some properties ∧
    property ∈ properties ∧ wellTyped property = false ∧
    ((property_name property = "persist"
      ∧ PersistNotBoolean "flag" = PersistNotBoolean (object_name object))
     ∨ (property_name property = "writableBy"
        ∧ PersistNotBoolean "flag" = WritableByNotString (object_name object))
     ∨ (property_name property = "readableBy"
        ∧ PersistNotBoolean "flag" = ReadableByNotString (object_name object))).
Proof.
  apply (extraction_error_names_object JSON_stringify_scalar brokenMap).
  vm_compute. reflexivity.
Defined.

Lemma schema_last_object_wins_witness :
  (<["score" := laterScoreVariable]> (<["note" := noteVariable]> ∅) : gmap string VariableObject)
    !! "score" = Some laterScoreVariable
  ↔ ∃ object, lastObjectNamed "score" (variableObjectsOf duplicateMap) = Some object ∧
      iTiledObjectToVariable JSON_stringify_scalar object = inr laterScoreVariable.
Proof.
  apply (schema_last_object_wins JSON_stringify_scalar duplicateMap).
  vm_compute. reflexivity.
Defined.

Lemma construction_completes_iff_witness :
  wellTyped {| property_name := "persist"; property_value := JBoolean true |} = true
  ∧ ∃ self, constructor JSON_stringify_scalar "room" None = inr self.
Proof.
  destruct (construction_completes_iff JSON_stringify_scalar "room" sampleMap)
    as [[Htyped _] Hbare].
  split; [|exact Hbare].
  apply (Htyped (ex_intro _ sampleStore sampleStore_constructed) scoreObject
           [ {| property_name := "default"; property_value := JNumber 0 |};
             {| property_name := "persist"; property_value := JBoolean true |};
             {| property_name := "writableBy"; property_value := JString "player" |};
             {| property_name := "readableBy"; property_value := JString "" |} ]).
  - apply scoreObject_qualifying.
  - reflexivity.
  - right. left.
Defined.

(** X5. Properties whose name the conversion has no case for are
    ignored: an object converts as the same object without them does. *)
Theorem unrecognized_properties_ignored JSON_stringify object properties :
  iTiledObjectToVariable JSON_stringify (withProperties object properties)
  = iTiledObjectToVariable JSON_stringify
      (withProperties object (List.filter recognized properties)).
Proof.
  unfold iTiledObjectToVariable, withProperties; simpl.
  generalize emptyVariable.
  induction properties as [|p rest IH]; intros variable; simpl; [done|].
  destruct (recognized p) eqn:Hp; simpl.
  - destruct (setProperty JSON_stringify (object_name object) variable p); [done|apply IH].
  - unfold recognized in Hp.
    apply orb_false_iff in Hp as [Hp Hr].
    apply orb_false_iff in Hp as [Hp Hw].
    apply orb_false_iff in Hp as [Hd Hp].
    unfold setProperty at 1. rewrite Hd, Hp, Hw, Hr. apply IH.
Qed.

(** X6. The definition that the conversion of an object gives is decided
    field by field by the last property that sets the field: the
    encoding of the last [default], the boolean of the last [persist],
    and for [writableBy] and [readableBy] the last value that is not the
    empty string, so that an empty value coming later does not lift a
    restriction set before; a field that no property sets is absent. *)
Theorem definition_fields JSON_stringify object properties variable :
  object_properties object = Some properties →
  iTiledObjectToVariable JSON_stringify object = inr variable →
  defaultValue variable
    = lastNamed "default" properties ≫= (λ p, JSON_stringify (property_value p))
  ∧ persist variable = lastPersist properties
  ∧ writableBy variable = lastTag "writableBy" properties
  ∧ readableBy variable = lastTag "readableBy" properties.
Proof.
  unfold iTiledObjectToVariable. intros -> Hloop. split.
  - rewrite (properties_defaultValue _ _ _ _ _ Hloop).
    by destruct (lastNamed "default" properties).
  - apply properties_fields in Hloop as (-> & -> & ->). simpl.
    by destruct (lastPersist properties), (lastTag "writableBy" properties),
      (lastTag "readableBy" properties).
Qed.

Lemma definition_fields_witness :
  defaultValue laterScoreVariable = None
  ∧ persist laterScoreVariable = None
  ∧ writableBy laterScoreVariable = Some "admin"
  ∧ readableBy laterScoreVariable = None.
Proof.
  apply (definition_fields JSON_stringify_scalar laterScoreObject
           [ {| property_name := "writableBy"; property_value := JString "admin" |};
             {| property_name := "writableBy"; property_value := JString "" |};
             {| property_name := "comment"; property_value := JNumber 3 |} ]
           laterScoreVariable).
  - reflexivity.
  - vm_compute. reflexivity.
Defined.

(** * Further properties: the life of a store *)

(** A run of calls keeps the schema, the map and the room. *)
Lemma runAll_schema env ops w :
  variableObjects (this (runAll env ops w)) = variableObjects (this w) ∧
  map (this (runAll env ops w)) = map (this w) ∧
  roomUrl (this (runAll env ops w)) = roomUrl (this w).
Proof.
  unfold runAll. revert w. induction ops as [|op ops IH]; intros w; simpl; [done|].
  destruct (IH (run env op w)) as (-> & -> & ->). apply run_schema.
Qed.

Lemma reachable_runAll JSON_stringify env ops w :
  reachable JSON_stringify env w → reachable JSON_stringify env (runAll env ops w).
Proof.
  unfold runAll. revert w. induction ops as [|op ops IH]; intros w Hw; simpl; [done|].
  by apply IH, reachable_run.
Qed.

(** Without persistence the store invariant holds in every state. *)
Lemma reachable_invariant_offline JSON_stringify env w :
  reachable JSON_stringify env w →
  shouldPersist env (this w) = false →
  schema_invariant (this w).
Proof.
  induction 1 as [url tiledMap self Hnew|op w Hw IH]; intros Hoff.
  - by eapply constructor_invariant.
  - assert (shouldPersist env (this w) = false) as Hoff'.
    { destruct (run_schema env op w) as (_ & Hmap & _).
      unfold shouldPersist in *. by rewrite <- Hmap. }
    destruct op as [|name value user|tags]; simpl.
    + rewrite init_cases, Hoff'. by apply IH.
    + by apply setVariable_invariant, IH.
    + rewrite getVariablesForTags_state. by apply IH.
Qed.

(** A read that returns shows that every key is declared. *)
Lemma getVariablesForTags_returns_declared tags w objects readableVariables :
  variableObjects (this w) = Some objects →
  map_Forall (λ _ variable, tags_set variable) objects →
  fst (getVariablesForTags tags w) = inr readableVariables →
  schema_invariant (this w).
Proof.
  intros Hschema Htags Hread objects' Hobjects' key Hkey.
  assert (objects' = objects) as -> by congruence.
  pose proof (read_loop objects tags (_variables (this w)) Htags) as Hloop.
  unfold getVariablesForTags, mbind at 1, M_bind, getThis, mret, M_ret, throw in Hread.
  simpl in Hread. rewrite Hschema in Hread.
  destruct (map_fold _ _ _) as [e|result]; [done|].
  by apply Hloop.
Qed.

(** X7. A store that has just been constructed reads as the default
    values of its schema: for every tag set the read returns, and it holds
    a name with a value exactly when the definition of the name has that
    default value and has no [readableBy] or one among the tags. A store
    without map reads as the empty map. *)
Theorem fresh_store_reads_defaults JSON_stringify url tiledMap self tags :
  constructor JSON_stringify url tiledMap = inr self →
  ∃ readableVariables,
    getVariablesForTags tags (newWorld self) = (inr readableVariables, newWorld self) ∧
    ∀ name value, readableVariables !! name = Some value ↔
      ∃ objects variableObject,
        variableObjects self = Some objects ∧
        objects !! name = Some variableObject ∧
        defaultValue variableObject = Some value ∧
        (readableBy variableObject = None ∨
         ∃ tag, readableBy variableObject = Some tag ∧ tag ∈ tags).
Proof.
  intros Hnew. pose proof (constructor_invariant _ _ _ _ Hnew) as Hinv.
  apply constructor_cases in Hnew as (_ & _ & Hcases).
  destruct tiledMap as [m|].
  - destruct Hcases as (objects & Hfind & Hschema & Hvars).
    destruct (getVariablesForTags_declared tags (newWorld self) objects)
      as (result & Hread & Hentries); [done|by eapply findVariablesInMap_tags|done|].
    exists result. split; [done|]. intros name value.
    rewrite Hentries. simpl. rewrite Hvars, seedDefaults_lookup. unfold visible. split.
    + intros [Hdefault (variableObject & Hname & Hvisible)].
      exists objects, variableObject. rewrite Hname in Hdefault. done.
    + intros (objects' & variableObject & Hobjects' & Hname & Hdefault & Hvisible).
      assert (objects' = objects) as -> by congruence.
      rewrite Hname. split; [done|]. by exists variableObject.
  - destruct Hcases as [Hschema Hvars].
    rewrite getVariablesForTags_schemaless by done. simpl. rewrite Hvars.
    eexists. split; [done|]. intros name value. rewrite lookup_empty.
    split; [done|]. intros (objects & ? & Hobjects & _). congruence.
Qed.

Lemma fresh_store_reads_defaults_witness :
  ∃ readableVariables,
    getVariablesForTags ["guest"] (newWorld sampleStore)
    = (inr readableVariables, newWorld sampleStore) ∧
    ∀ name value, readableVariables !! name = Some value ↔
      ∃ objects variableObject,
        variableObjects sampleStore = Some objects ∧
        objects !! name = Some variableObject ∧
        defaultValue variableObject = Some value ∧
        (readableBy variableObject = None ∨
         ∃ tag, readableBy variableObject = Some tag ∧ tag ∈ ["guest"]).
Proof.
  apply (fresh_store_reads_defaults JSON_stringify_scalar "room" (Some sampleMap)).
  vm_compute. reflexivity.
Defined.

(** X8. No sequence of calls changes the schema: after any calls to
    [init], [setVariable] and [getVariablesForTags], returning or
    throwing, the store has the schema, the map and the room that the
    constructor gave it. *)
Theorem schema_is_frozen JSON_stringify env url tiledMap self ops :
  constructor JSON_stringify url tiledMap = inr self →
  variableObjects (this (runAll env ops (newWorld self))) = variableObjects self
  ∧ map (this (runAll env ops (newWorld self))) = tiledMap
  ∧ roomUrl (this (runAll env ops (newWorld self))) = url.
Proof.
  intros (Hurl & Hmap & _)%constructor_cases.
  destruct (runAll_schema env ops (newWorld self)) as (-> & -> & ->). done.
Qed.

Lemma schema_is_frozen_witness :
  variableObjects
    (this (runAll staleEnv
             [OpInit; OpSetVariable "score" "42" player; OpSetVariable "ghost" "2" guest;
              OpGetVariablesForTags []]
             (newWorld sampleStore)))
  = Some sampleSchema
  ∧ map (this (runAll staleEnv
             [OpInit; OpSetVariable "score" "42" player; OpSetVariable "ghost" "2" guest;
              OpGetVariablesForTags []]
             (newWorld sampleStore))) = Some sampleMap
  ∧ roomUrl (this (runAll staleEnv
             [OpInit; OpSetVariable "score" "42" player; OpSetVariable "ghost" "2" guest;
              OpGetVariablesForTags []]
             (newWorld sampleStore))) = "room".
Proof.
  apply (schema_is_frozen JSON_stringify_scalar staleEnv "room" (Some sampleMap) sampleStore).
  vm_compute. reflexivity.
Defined.

(** The calls to [saveVariable] that a call adds. *)
Lemma run_saves env op w :
  saveVariable_calls (run env op w)
  = (saveVariable_calls w ++ acceptedWrites [op] w)%list.
Proof.
  destruct op as [|name value user|tags]; simpl.
  - rewrite init_cases, (right_id_L [] (++)). by repeat case_match.
  - rewrite setVariable_cases.
    destruct (variableObjects (this w)) as [objects|]; simpl; [|done].
    destruct (objects !! name) as [variableObject|]; simpl;
      [|by rewrite (right_id_L [] (++))].
    destruct (writableBy variableObject) as [tag|]; simpl; [|done].
    destruct (truthy tag && negb (includes (user_tags user) tag)); simpl;
      [by rewrite (right_id_L [] (++))|done].
  - by rewrite getVariablesForTags_state, (right_id_L [] (++)).
Qed.

(** The calls that a sequence asks for do not depend on the state of the
    store in which it starts, but on its schema and its room. *)
Lemma acceptedWrites_run env op ops w :
  acceptedWrites ops (run env op w) = acceptedWrites ops w.
Proof.
  destruct (run_schema env op w) as (Hschema & _ & Hurl).
  unfold acceptedWrites.
  induction ops as [|op' ops IH]; [done|].
  cbn [omap list_omap]. rewrite IH.
  destruct op' as [|name value user|tags]; [done| |done].
  rewrite Hurl, !setVariable_cases, Hschema.
  destruct (variableObjects (this w)) as [objects|]; simpl; [|done].
  destruct (objects !! name) as [variableObject|]; simpl; [|done].
  destruct (writableBy variableObject) as [tag|]; simpl; [|done].
  by destruct (truthy tag && negb (includes (user_tags user) tag)).
Qed.

(** X9. The calls that a store makes to [saveVariable] are those of its
    writes that return, and no other: after any sequence of calls the log
    is the log before followed by one call for each [setVariable] of the
    sequence that returns, in order; [init] and [getVariablesForTags] add
    no call, and a [setVariable] that throws adds none. Every call of the
    log is for the room of the store and, when the store has a schema,
    for a name that the schema declares. *)
Theorem saves_are_declared_writes JSON_stringify env w ops :
  reachable JSON_stringify env w →
  (∀ call, call ∈ saveVariable_calls w →
     save_roomUrl call = roomUrl (this w)
     ∧ ∀ objects, variableObjects (this w) = Some objects →
         is_Some (objects !! save_name call))
  ∧ saveVariable_calls (runAll env ops w)
    = (saveVariable_calls w ++ acceptedWrites ops w)%list
  ∧ saveVariable_calls (snd (init env w)) = saveVariable_calls w
  ∧ (∀ tags,
       saveVariable_calls (snd (getVariablesForTags tags w)) = saveVariable_calls w)
  ∧ (∀ name value user e w',
       setVariable name value user w = (inl e, w') →
       saveVariable_calls w' = saveVariable_calls w)
  ∧ (∀ name value user r w',
       setVariable name value user w = (inr r, w') →
       saveVariable_calls w'
       = (saveVariable_calls w ++
          [ {| save_roomUrl := roomUrl (this w);
               save_name := name; save_value := value |} ])%list).
Proof.
  intros Hreach. split; [|split; [|split; [|split; [|split]]]].
  - induction Hreach as [url tiledMap self Hnew|op w Hw IH]; intros call.
    + by intros ?%elem_of_nil.
    + destruct (run_schema env op w) as (Hschema & _ & Hurl).
      rewrite Hschema, Hurl, run_saves.
      intros [Hold|Hnew]%elem_of_app; [by apply IH|].
      destruct op as [|name value user|tags]; simpl in Hnew;
        [by apply elem_of_nil in Hnew| |by apply elem_of_nil in Hnew].
      destruct (setVariable name value user w) as [[e|r] w'] eqn:Hset; simpl in Hnew;
        [by apply elem_of_nil in Hnew|].
      apply list_elem_of_singleton in Hnew as ->. split; [done|].
      intros objects Hobjects. simpl.
      rewrite setVariable_cases, Hobjects in Hset.
      destruct (objects !! name); [by eexists|done].
  - clear Hreach. unfold runAll. revert w.
    induction ops as [|op ops IH]; intros w; cbn [foldl].
    + unfold acceptedWrites. simpl. by rewrite (right_id_L [] (++)).
    + rewrite IH, run_saves, acceptedWrites_run, <- (assoc_L (++)).
      f_equal. unfold acceptedWrites.
      change (op :: ops) with ([op] ++ ops)%list. by rewrite omap_app.
  - rewrite init_cases. by repeat case_match.
  - intros tags. by rewrite getVariablesForTags_state.
  - by intros name value user e w' ->%setVariable_throw_state.
  - by intros name value user r w' [-> _]%setVariable_return_state.
Qed.

Lemma saves_are_declared_writes_witness :
  saveVariable_calls
    (runAll staleEnv
       [OpSetVariable "score" "41" guest; OpInit; OpSetVariable "ghost" "2" player;
        OpSetVariable "score" "42" player; OpGetVariablesForTags ["admin"]]
       (newWorld sampleStore))
  = [ {| save_roomUrl := "room"; save_name := "score"; save_value := "42" |} ]
  ∧ saveVariable_calls (snd (setVariable "score" "41" guest (newWorld sampleStore))) = [].
Proof.
  destruct (saves_are_declared_writes JSON_stringify_scalar staleEnv (newWorld sampleStore)
              [OpSetVariable "score" "41" guest; OpInit; OpSetVariable "ghost" "2" player;
               OpSetVariable "score" "42" player; OpGetVariablesForTags ["admin"]]
              (sampleStore_reachable staleEnv))
    as (_ & Hlog & _ & _ & Hthrow & _).
  split.
  - rewrite Hlog. vm_compute. reflexivity.
  - apply (Hthrow "score" "41" guest
             (InsufficientPermission "score" "bob" "player" ["guest"])).
    vm_compute. reflexivity.
Defined.

(** X10. In a store with a schema, a write to a declared variable is
    accepted exactly when the definition has no [writableBy] tag or the
    user holds the tag. *)
Theorem write_accepted_iff JSON_stringify env w objects name variableObject value user :
  reachable JSON_stringify env w →
  variableObjects (this w) = Some objects →
  objects !! name = Some variableObject →
  (∃ r w', setVariable name value user w = (inr r, w'))
  ↔ (writableBy variableObject = None
     ∨ ∃ tag, writableBy variableObject = Some tag ∧ tag ∈ user_tags user).
Proof.
  intros Hreach Hschema Hname.
  destruct (reachable_schema _ _ _ Hreach) as [_ Htags].
  destruct (Htags objects Hschema name variableObject Hname) as [Hw _].
  rewrite setVariable_cases, Hschema, Hname.
  destruct (writableBy variableObject) as [tag|]; [|split; eauto].
  assert (truthy tag = true) as -> by (apply truthy_nonempty; congruence).
  unfold includes. simpl. destruct (decide (tag ∈ user_tags user)) as [Hin|Hout].
  - rewrite bool_decide_eq_true_2 by done. simpl. split; eauto.
  - rewrite bool_decide_eq_false_2 by done. simpl. split.
    + by intros (? & ? & [=]).
    + intros [[=]|(? & [= <-] & ?)]. done.
Qed.

Lemma write_accepted_iff_witness :
  (∃ r w', setVariable "score" "42" player (newWorld sampleStore) = (inr r, w'))
  ↔ (writableBy scoreVariable = None
     ∨ ∃ tag, writableBy scoreVariable = Some tag ∧ tag ∈ user_tags player).
Proof.
  apply (write_accepted_iff JSON_stringify_scalar offlineEnv (newWorld sampleStore)
           sampleSchema "score" scoreVariable "42" player).
  - apply sampleStore_reachable.
  - reflexivity.
  - vm_compute. reflexivity.
Defined.

(** X11. The tag that [setVariable] returns tells who reads the new
    value. After a write that returns, in a store whose keys were all
    declared, the read of any tag set returns, and it holds the written
    value under the written name when the returned tag is absent or among
    the tags, and holds nothing under that name otherwise. *)
Theorem written_value_readers JSON_stringify env w name value user r w' tags :
  reachable JSON_stringify env w →
  schema_invariant (this w) →
  setVariable name value user w = (inr r, w') →
  ∃ readableVariables,
    getVariablesForTags tags w' = (inr readableVariables, w') ∧
    ((r = None ∨ ∃ tag, r = Some tag ∧ tag ∈ tags) →
       readableVariables !! name = Some value) ∧
    (∀ tag, r = Some tag → tag ∉ tags → readableVariables !! name = None).
Proof.
  intros Hreach Hinv Hset.
  destruct (reachable_schema _ _ _ Hreach) as [_ Htags].
  pose proof (setVariable_invariant name value user w Hinv) as Hinv'.
  rewrite Hset in Hinv'. simpl in Hinv'.
  pose proof Hset as [-> Hr]%setVariable_return_state.
  rewrite setVariable_cases in Hset.
  destruct (variableObjects (this w)) as [objects|] eqn:Hschema.
  - destruct (objects !! name) as [variableObject|] eqn:Hname; [|done].
    simpl in Hr. subst r.
    destruct (getVariablesForTags_declared tags (written name value w) objects)
      as (result & Hread & Hentries); [done|by apply Htags|done|].
    exists result. split; [done|]. split.
    + intros Hallowed. apply Hentries. simpl. rewrite lookup_insert_eq.
      split; [done|]. by exists variableObject.
    + intros tag Htag Hout. destruct (result !! name) as [v|] eqn:Hv; [|done].
      apply Hentries in Hv as [_ (variableObject' & Hname' & Hvisible)].
      assert (variableObject' = variableObject) as -> by congruence.
      destruct Hvisible as [Hnone|(tag' & Htag' & Hin)]; congruence.
  - subst r. rewrite getVariablesForTags_schemaless by done.
    eexists. split; [done|]. simpl. rewrite lookup_insert_eq. split; [done|].
    by intros tag [=].
Qed.

Lemma written_value_readers_witness :
  ∃ readableVariables,
    getVariablesForTags ["guest"] (written "note" "hello" (newWorld sampleStore))
    = (inr readableVariables, written "note" "hello" (newWorld sampleStore)) ∧
    ((Some "admin" = None ∨ ∃ tag, Some "admin" = Some tag ∧ tag ∈ ["guest"]) →
       readableVariables !! "note" = Some "hello") ∧
    (∀ tag, Some "admin" = Some tag → tag ∉ ["guest"] →
       readableVariables !! "note" = None).
Proof.
  apply (written_value_readers JSON_stringify_scalar offlineEnv (newWorld sampleStore)
           "note" "hello" guest).
  - apply sampleStore_reachable.
  - apply (constructor_invariant JSON_stringify_scalar "room" (Some sampleMap)).
    vm_compute. reflexivity.
  - vm_compute. reflexivity.
Defined.

(** X12. [init] can be repeated: a second [init] gives the result of the
    first and leaves the state that the first left. *)
Theorem init_idempotent env w :
  init env (snd (init env w)) = init env w.
Proof.
  rewrite (init_cases env w).
  destruct (shouldPersist env (this w)) eqn:Hon; simpl.
  - destruct (loadVariables env (roomUrl (this w))) as [e|variables] eqn:Hload; simpl.
    + by rewrite init_cases, Hon, Hload.
    + rewrite init_cases. simpl.
      assert (shouldPersist env
                {| roomUrl := roomUrl (this w); map := map (this w);
                   _variables := variables ∪ _variables (this w);
                   variableObjects := variableObjects (this w) |} = true) as ->
        by done.
      rewrite Hload.
      by rewrite (assoc_L (∪)), (idemp_L (∪)).
  - by rewrite init_cases, Hon.
Qed.

(** X13. [init] run after a write undoes it in memory when the
    repository holds the name: the value map then has the loaded value
    under the name, and keeps the written value only when the name was not
    loaded. *)
Theorem init_overrides_writes env w name value user r w1 variables :
  shouldPersist env (this w) = true →
  loadVariables env (roomUrl (this w)) = inr variables →
  setVariable name value user w = (inr r, w1) →
  _variables (this (snd (init env w1))) !! name =
    match variables !! name with
    | Some loaded => Some loaded
    | None => Some value
    end.
Proof.
  intros Hon Hload [-> _]%setVariable_return_state.
  rewrite init_cases. simpl.
  assert (shouldPersist env
            {| roomUrl := roomUrl (this w); map := map (this w);
               _variables := <[name := value]> (_variables (this w));
               variableObjects := variableObjects (this w) |} = true) as ->
    by done.
  rewrite Hload. simpl.
  destruct (variables !! name) as [loaded|] eqn:Hname.
  - by apply lookup_union_Some_l.
  - by rewrite lookup_union_r, lookup_insert_eq.
Qed.

Lemma init_overrides_writes_witness :
  _variables (this (snd (init staleEnv (written "score" "42" (newWorld sampleStore)))))
    !! "score" = Some "7".
Proof.
  rewrite (init_overrides_writes staleEnv (newWorld sampleStore) "score" "42" player None
             (written "score" "42" (newWorld sampleStore))
             (<["ghost" := "1"]> (<["score" := "7"]> ∅))).
  - vm_compute. reflexivity.
  - vm_compute. reflexivity.
  - reflexivity.
  - vm_compute. reflexivity.
Defined.

(** X14. A reader with more tags reads more: when the read returns for a
    tag set, it returns for every larger tag set, with a map that holds
    every entry of the first. *)
Theorem more_tags_read_more JSON_stringify env w tags tags'
    (readableVariables : gmap string string) :
  reachable JSON_stringify env w →
  (∀ tag, tag ∈ tags → tag ∈ tags') →
  fst (getVariablesForTags tags w) = inr readableVariables →
  ∃ readableVariables',
    fst (getVariablesForTags tags' w) = inr readableVariables' ∧
    readableVariables ⊆ readableVariables'.
Proof.
  intros Hreach Hsub Hread.
  destruct (reachable_schema _ _ _ Hreach) as [_ Htags].
  destruct (variableObjects (this w)) as [objects|] eqn:Hschema.
  - pose proof (getVariablesForTags_returns_declared tags w objects readableVariables
                  Hschema (Htags _ eq_refl) Hread) as Hinv.
    destruct (getVariablesForTags_declared tags w objects Hschema (Htags _ eq_refl) Hinv)
      as (result & Hresult & Hentries).
    destruct (getVariablesForTags_declared tags' w objects Hschema (Htags _ eq_refl) Hinv)
      as (result' & Hresult' & Hentries').
    rewrite Hresult in Hread. injection Hread as ->.
    exists result'. rewrite Hresult'. split; [done|].
    apply map_subseteq_spec. intros key value [Hkey Hvisible]%Hentries.
    apply Hentries'. split; [done|].
    destruct Hvisible as (variableObject & Hdef & [Hnone|(tag & Htag & Hin)]);
      exists variableObject; eauto 6.
  - rewrite getVariablesForTags_schemaless in Hread |- * by done.
    injection Hread as <-. by eexists.
Qed.

Lemma more_tags_read_more_witness :
  ∃ readableVariables',
    fst (getVariablesForTags ["guest"; "admin"]
           (run offlineEnv (OpSetVariable "note" "hello" guest) (newWorld sampleStore)))
    = inr readableVariables' ∧
    (<["score" := "0"]> ∅ : gmap string string) ⊆ readableVariables'.
Proof.
  apply (more_tags_read_more JSON_stringify_scalar offlineEnv
           (run offlineEnv (OpSetVariable "note" "hello" guest) (newWorld sampleStore))
           ["guest"] ["guest"; "admin"]).
  - apply reachable_run, sampleStore_reachable.
  - intros tag Hin. apply elem_of_cons. by left; apply list_elem_of_singleton.
  - vm_compute. reflexivity.
Defined.

(** X15. Whether a write is accepted, with which result or which error,
    depends on nothing that the calls change: after any sequence of calls
    a given [setVariable] has the outcome it had before them. *)
Theorem write_outcome_is_stable env ops name value user w :
  fst (setVariable name value user (runAll env ops w))
  = fst (setVariable name value user w).
Proof.
  destruct (runAll_schema env ops w) as (Hschema & _ & _).
  rewrite !setVariable_cases, Hschema.
  by repeat case_match.
Qed.

(** X16. The last writer wins: of two writes to the same name that
    return, the value map keeps the second value where the one name is,
    and everything else as it was before both. *)
Theorem last_writer_wins name value1 value2 user1 user2 w r1 w1 r2 w2 :
  setVariable name value1 user1 w = (inr r1, w1) →
  setVariable name value2 user2 w1 = (inr r2, w2) →
  _variables (this w2) = <[name := value2]> (_variables (this w))
  ∧ r2 = r1.
Proof.
  intros [-> ->]%setVariable_return_state [-> ->]%setVariable_return_state.
  simpl. by rewrite insert_insert_eq.
Qed.

Lemma last_writer_wins_witness :
  _variables (this (written "score" "43" (written "score" "42" (newWorld sampleStore))))
  = <["score" := "43"]> (_variables (this (newWorld sampleStore)))
  ∧ @None string = None.
Proof.
  apply (last_writer_wins "score" "42" "43" player player (newWorld sampleStore)
           None (written "score" "42" (newWorld sampleStore))
           None (written "score" "43" (written "score" "42" (newWorld sampleStore))));
    vm_compute; reflexivity.
Defined.

(** X17. Writes to different names do not interfere: two writes that
    return, made in the other order, return the same results and leave
    the same instance. *)
Theorem writes_commute name1 name2 value1 value2 user1 user2 w r1 w1 r2 w12 :
  name1 ≠ name2 →
  setVariable name1 value1 user1 w = (inr r1, w1) →
  setVariable name2 value2 user2 w1 = (inr r2, w12) →
  ∃ w2 w21,
    setVariable name2 value2 user2 w = (inr r2, w2) ∧
    setVariable name1 value1 user1 w2 = (inr r1, w21) ∧
    this w21 = this w12.
Proof.
  intros Hne Hfirst Hsecond.
  pose proof Hfirst as [-> _]%setVariable_return_state.
  pose proof Hsecond as [-> _]%setVariable_return_state.
  exists (written name2 value2 w), (written name1 value1 (written name2 value2 w)).
  rewrite setVariable_cases in Hfirst, Hsecond. simpl in Hsecond.
  rewrite !setVariable_cases. simpl.
  split; [|split].
  - repeat case_match; by simplify_eq.
  - repeat case_match; by simplify_eq.
  - unfold written; simpl. by rewrite insert_insert_ne.
Qed.

Lemma writes_commute_witness :
  ∃ w2 w21,
    setVariable "note" "hello" guest (newWorld sampleStore) = (inr (Some "admin"), w2) ∧
    setVariable "score" "42" player w2 = (inr None, w21) ∧
    this w21 = this (written "note" "hello" (written "score" "42" (newWorld sampleStore))).
Proof.
  apply (writes_commute "score" "note" "42" "hello" player guest (newWorld sampleStore)
           None (written "score" "42" (newWorld sampleStore))).
  - discriminate.
  - vm_compute. reflexivity.
  - vm_compute. reflexivity.
Defined.

(** X18. The read of a store never throws as long as [init] cannot bring
    in an undeclared name: when persistence is off for the store, or when
    the repository holds declared names only, every key of the value map
    is declared in every state, and [getVariablesForTags] returns for
    every tag set. *)
Theorem read_never_throws JSON_stringify env w tags :
  reachable JSON_stringify env w →
  (shouldPersist env (this w) = false
   ∨ ∀ objects variables key,
       variableObjects (this w) = Some objects →
       loadVariables env (roomUrl (this w)) = inr variables →
       is_Some (variables !! key) → is_Some (objects !! key)) →
  schema_invariant (this w)
  ∧ ∃ readableVariables, getVariablesForTags tags w = (inr readableVariables, w).
Proof.
  intros Hreach Hsafe.
  assert (schema_invariant (this w)) as Hinv.
  { destruct Hsafe as [Hoff|Hdeclared].
    - by eapply reachable_invariant_offline.
    - by eapply reachable_invariant. }
  split; [done|].
  destruct (reachable_schema _ _ _ Hreach) as [_ Htags].
  destruct (variableObjects (this w)) as [objects|] eqn:Hschema.
  - destruct (getVariablesForTags_declared tags w objects Hschema (Htags _ eq_refl) Hinv)
      as (result & Hread & _). by exists result.
  - rewrite getVariablesForTags_schemaless by done. by eexists.
Qed.

Lemma read_never_throws_witness :
  schema_invariant (this (run offlineEnv OpInit (newWorld sampleStore)))
  ∧ ∃ readableVariables,
      getVariablesForTags ["admin"] (run offlineEnv OpInit (newWorld sampleStore))
      = (inr readableVariables, run offlineEnv OpInit (newWorld sampleStore)).
Proof.
  apply (read_never_throws JSON_stringify_scalar offlineEnv).
  - apply reachable_run, sampleStore_reachable.
  - left. vm_compute. reflexivity.
Defined.
